(** * anki2html: package decoder and card resolution

    A shallow embedding of the Go sources [main.go] (in its later revision,
    the one with the sound rewriting) and [database_model.go], with the
    properties of the specification stated over it.

    Go values are modelled as follows.
    - [int], [int64]: [Z]; the only arithmetic on them is in the time
      codecs, where the 64-bit wrap-around is written out ([wrap64]).
    - [float64]: the binary64 floats of the Standard Library.
    - [string]: [string] (a sequence of bytes, as in Go).
    - [map[K]V]: [gmap K V]; a lookup that misses yields the zero value
      of [V]; a [range] over a map visits its entries in an order chosen
      by the runtime, which the model receives as a list (a permutation of
      the entries).
    - a function returning [error]: an [outcome], which also makes the
      run-time panics of the language explicit. *)

From Stdlib Require Import ZArith String Ascii List Bool Lia Floats Permutation.
From stdpp Require Import gmap strings list fin_maps.

Set Warnings "-register-all".
Local Open Scope Z_scope.

(* ===================================================================== *)
(** * Errors, panics and outcomes *)
(* ===================================================================== *)

(** The [error] values the program returns. The first four are the ones the
    repository builds itself ([fmt.Errorf], [errors.New]); the others come
    from the libraries it calls. *)
Inductive goerror : Type :=
| ErrCollections (n : nat)  (* Expected exactly 1 defined collection in database, got n *)
| ErrNoCards                (* Did not find any cards in database - will not create an empty file *)
| ErrMultipleDecks          (* There are multiple decks in use. So please set the title explicitly ... *)
| ErrMalicious              (* zip archive contains malicious file path for media file ... *)
| ErrScan                   (* Cannot convert ... to SecondsTime / MilliSecondsTime value *)
| ErrSyntax (s : string)    (* strconv.Atoi: parsing s: invalid syntax *)
| ErrRange (s : string)     (* strconv.Atoi: parsing s: value out of range *)
| ErrJSON                   (* json.Unmarshal failed *)
| ErrOS (path : string).    (* an error of package os, zip or io on this path *)

(** The errors of [strconv.Atoi]. *)
Definition atoi_error (e : goerror) : Prop :=
  match e with
  | ErrSyntax _ | ErrRange _ => True
  | _ => False
  end.

(** Run-time panics of the Go language. *)
Inductive gopanic : Type :=
| PanicIndex (i : Z) (len : nat)   (* index out of range [i] with length len *)
| PanicTypeAssert.                 (* interface conversion *)

Inductive outcome (A : Type) : Type :=
| Ok (a : A)
| Err (e : goerror)
| Panic (p : gopanic).
Arguments Ok {A} a.
Arguments Err {A} e.
Arguments Panic {A} p.

Definition bind {A B : Type} (m : outcome A) (k : A -> outcome B) : outcome B :=
  match m with
  | Ok a => k a
  | Err e => Err e
  | Panic p => Panic p
  end.

Notation "'let*' x ':=' m 'in' k" := (bind m (fun x => k))
  (at level 10, x name, m at level 100, k at level 200).

(* ===================================================================== *)
(** * Machine integers and floats *)
(* ===================================================================== *)

Definition min_int64 : Z := - 2 ^ 63.
Definition max_int64 : Z := 2 ^ 63 - 1.

Definition in_int64 (z : Z) : Prop := min_int64 <= z <= max_int64.

Definition in_int64b (z : Z) : bool := (min_int64 <=? z) && (z <=? max_int64).

(** Two's complement wrap-around of [int64] arithmetic. *)
Definition wrap64 (z : Z) : Z := (z + 2 ^ 63) mod 2 ^ 64 - 2 ^ 63.

(** The conversion [int64(f)] (and [int(f)] on a 64-bit platform): the
    fraction is discarded. For a value that does not fit (or is not a
    number) the language leaves the result to the implementation; amd64
    yields the smallest integer. *)
Definition int64_of_float64 (f : float) : Z :=
  match Prim2SF f with
  | S754_zero _ => 0
  | S754_finite s m e =>
      let a := if 0 <=? e then Z.pos m * 2 ^ e else Z.pos m / 2 ^ (- e) in
      let v := if s then - a else a in
      if in_int64b v then v else min_int64
  | _ => min_int64
  end.

(* ===================================================================== *)
(** * Package strings and strconv *)
(* ===================================================================== *)

Module strings.

(** [replace_from old new skip s]: the scan of [Replace] over [s]; [skip]
    counts the bytes of an occurrence of [old] still to be passed over. *)
Fixpoint replace_from (old new : string) (skip : nat) (s : string) : string :=
  match s with
  | EmptyString => EmptyString
  | String c s' =>
      match skip with
      | S k => replace_from old new k s'
      | O =>
          if String.prefix old s
          then new +:+ replace_from old new (Nat.pred (String.length old)) s'
          else String c (replace_from old new O s')
      end
  end.

(** [strings.Replace(s, old, new, -1)]: every non-overlapping occurrence
    of [old], found from left to right, is replaced; the text put in is
    not scanned again. Every pattern the program passes holds the four
    braces, so the library's special case of an empty [old] is not part
    of the model ([s] is returned there). *)
Definition Replace (s old new : string) : string :=
  match old with
  | EmptyString => s
  | _ => replace_from old new O s
  end.

(** [strings.Split(s, sep)] for a separator of one byte. The result is
    never empty: the empty string splits into one empty field. *)
Fixpoint Split (s : string) (sep : ascii) : list string :=
  match s with
  | EmptyString => [EmptyString]
  | String c s' =>
      if Ascii.eqb c sep then EmptyString :: Split s' sep
      else match Split s' sep with
           | h :: t => String c h :: t
           | [] => [String c EmptyString]
           end
  end.

(** [strings.Contains]. *)
Fixpoint Contains (s sub : string) : bool :=
  String.prefix sub s ||
  match s with
  | EmptyString => false
  | String _ s' => Contains s' sub
  end.

End strings.

Module strconv.

Definition digit_of (c : ascii) : option Z :=
  let n := Z.of_N (N_of_ascii c) in
  if (48 <=? n) && (n <=? 57) then Some (n - 48) else None.

Definition max_uint64 : Z := 2 ^ 64 - 1.

(** What the scan of the digits ends with: their value, a byte that is no
    digit, or a value beyond [uint64]. *)
Inductive scanned : Type :=
| Digits (n : Z)
| NoDigit
| TooBig.

(** The loop of [ParseUint] in base 10: it stops at the first byte that
    is no digit, and at the first digit with which the value leaves
    [uint64], whichever comes first. *)
Fixpoint digits (s : string) (acc : Z) : scanned :=
  match s with
  | EmptyString => Digits acc
  | String c s' =>
      match digit_of c with
      | Some d =>
          if max_uint64 <? 10 * acc + d then TooBig else digits s' (10 * acc + d)
      | None => NoDigit
      end
  end.

(** [strconv.Atoi]: an optional sign, then one or more decimal digits;
    the value must fit an [int] of 64 bits. The error is the one of the
    range when the digits leave [uint64] before a byte that is no digit is
    met, or when all bytes are digits and the signed value does not fit. *)
Definition Atoi (s : string) : outcome Z :=
  let '(neg, body) :=
    match s with
    | String c r =>
        if Ascii.eqb c "-"%char then (true, r)
        else if Ascii.eqb c "+"%char then (false, r)
        else (false, s)
    | EmptyString => (false, s)
    end in
  match body with
  | EmptyString => Err (ErrSyntax s)
  | _ =>
      match digits body 0 with
      | NoDigit => Err (ErrSyntax s)
      | TooBig => Err (ErrRange s)
      | Digits n =>
          let v := if neg then - n else n in
          if in_int64b v then Ok v else Err (ErrRange s)
      end
  end.

End strconv.

(* ===================================================================== *)
(** * Package time *)
(* ===================================================================== *)

Module time.

Inductive Location : Type := Local | UTCLoc.

(** A [time.Time] without a monotonic clock reading (neither [time.Unix]
    nor a database driver produces one): [ext] is the number of seconds
    since January 1, year 1, an [int64]; [nsec] the nanoseconds within
    the second. *)
Record Time : Type := mkTime { ext : Z; nsec : Z; loc : Location }.

Definition unixToInternal : Z := (1969 * 365 + 1969 / 4 - 1969 / 100 + 1969 / 400) * 86400.
Definition internalToUnix : Z := - unixToInternal.

(** [time.Unix(sec, nsec)]: [nsec] outside [0, 999999999] is carried
    into the seconds. Go's [/] truncates towards zero ([Z.quot]). *)
Definition Unix (sec nsec : Z) : Time :=
  let '(sec, nsec) :=
    if (nsec <? 0) || (1000000000 <=? nsec) then
      let n := Z.quot nsec 1000000000 in
      let sec := wrap64 (sec + n) in
      let nsec := wrap64 (nsec - wrap64 (n * 1000000000)) in
      if nsec <? 0 then (wrap64 (sec - 1), wrap64 (nsec + 1000000000))
      else (sec, nsec)
    else (sec, nsec) in
  mkTime (wrap64 (sec + unixToInternal)) nsec Local.

(** [t.UTC()]: only the location changes. *)
Definition UTC (t : Time) : Time := mkTime (ext t) (nsec t) UTCLoc.

(** [t.Unix()]. *)
Definition Time_Unix (t : Time) : Z := wrap64 (ext t + internalToUnix).

(** [t.UnixNano()]. *)
Definition Time_UnixNano (t : Time) : Z :=
  wrap64 (wrap64 (Time_Unix t * 1000000000) + nsec t).

End time.

(* ===================================================================== *)
(** * database_model.go: the timestamp codecs *)
(* ===================================================================== *)

(** What a database driver hands to [Scan] (an [interface{}]): the dynamic
    types the two [Scan] methods distinguish, and two of the others a
    driver may produce. *)
Inductive value : Type :=
| VInt64 (i : Z)
| VFloat64 (f : float)
| VString (s : string)
| VTime (t : time.Time)
| VNil
| VBool (b : bool)
| VBytes (b : string).

Definition SecondsTime : Type := time.Time.
Definition MilliSecondsTime : Type := time.Time.

(** [SecondsTime.Scan] (pointer receiver): the decoded time, or the error
    returned (the receiver is then left as it was). *)
Definition SecondsTime_Scan (val : value) : outcome SecondsTime :=
  let* secs :=
    match val with
    | VInt64 i => Ok i
    | VFloat64 f => Ok (int64_of_float64 f)
    | VString s => strconv.Atoi s
    | VTime t => Ok (time.Time_Unix t)
    | VNil => Ok 0
    | _ => Err ErrScan
    end in
  Ok (time.UTC (time.Unix secs 0)).

(** [SecondsTime.Value]. *)
Definition SecondsTime_Value (s : SecondsTime) : outcome value :=
  Ok (VInt64 (time.Time_Unix s)).

(** [MilliSecondsTime.Scan] (pointer receiver). The quotient and the
    remainder of the stored integer by 1000 are passed to [time.Unix] as
    seconds and nanoseconds. *)
Definition MilliSecondsTime_Scan (val : value) : outcome MilliSecondsTime :=
  let* msecs :=
    match val with
    | VInt64 i => Ok i
    | VFloat64 f => Ok (int64_of_float64 f)
    | VString s => strconv.Atoi s
    | VTime t => Ok (time.Time_UnixNano t)
    | VNil => Ok 0
    | _ => Err ErrScan
    end in
  Ok (time.UTC (time.Unix (Z.quot msecs 1000) (Z.rem msecs 1000))).

(** [MilliSecondsTime.Value]. *)
Definition MilliSecondsTime_Value (s : MilliSecondsTime) : outcome value :=
  Ok (VInt64 (time.Time_UnixNano s)).

(** Decode from storage, then encode to storage. *)
Definition SecondsTime_roundtrip (t : Z) : outcome value :=
  let* s := SecondsTime_Scan (VInt64 t) in SecondsTime_Value s.

Definition MilliSecondsTime_roundtrip (t : Z) : outcome value :=
  let* s := MilliSecondsTime_Scan (VInt64 t) in MilliSecondsTime_Value s.

(* ===================================================================== *)
(** * Package path/filepath (Unix) *)
(* ===================================================================== *)

Module filepath.

Definition slash : ascii := "/"%char.

(** One round of [Clean] per path element; [out] holds the elements
    written so far, the last one first. An empty element and [.] are
    dropped; [..] removes the element before it, unless there is none to
    remove (none at all, or only [..] elements): then it is dropped in a
    rooted path and kept otherwise. *)
Fixpoint clean_elems (rooted : bool) (out : list string) (elems : list string)
  : list string :=
  match elems with
  | [] => out
  | e :: rest =>
      if String.eqb e "" || String.eqb e "." then clean_elems rooted out rest
      else if String.eqb e ".." then
        match out with
        | top :: out' =>
            if String.eqb top ".." then clean_elems rooted (e :: out) rest
            else clean_elems rooted out' rest
        | [] =>
            if rooted then clean_elems rooted out rest
            else clean_elems rooted [e] rest
        end
      else clean_elems rooted (e :: out) rest
  end.

(** [filepath.Clean]. *)
Definition Clean (path : string) : string :=
  match path with
  | EmptyString => "."
  | _ =>
      let rooted := String.prefix "/" path in
      let body := String.concat "/" (rev (clean_elems rooted [] (strings.Split path slash))) in
      if rooted then "/" +:+ body
      else match body with EmptyString => "." | _ => body end
  end.

(** [filepath.Join]: leading empty elements are skipped, the others are
    joined with slashes and the result is cleaned. *)
Fixpoint Join (elem : list string) : string :=
  match elem with
  | [] => ""
  | e :: rest =>
      match e with
      | EmptyString => Join rest
      | _ => Clean (String.concat "/" elem)
      end
  end.

(** [filepath.Dir]: the path up to its last slash, cleaned. *)
Definition Dir (path : string) : string :=
  let elems := strings.Split path slash in
  match removelast elems with
  | [] => Clean ""
  | front => Clean (String.concat "/" front +:+ "/")
  end.

End filepath.

(* ===================================================================== *)
(** * main.go: extractArchive and the media rename pass *)
(* ===================================================================== *)

(** An entry of the opened archive ([*zip.File]), with what its reader
    will do: [OpenErr] is the error of [f.Open()], if any; [Content] the
    bytes the reader delivers and [CopyErr] the error [io.Copy] ends
    with, if any. *)
Record zipFile : Type := mkZipFile {
  Name : string;
  IsDir : bool;
  OpenErr : option goerror;
  Content : string;
  CopyErr : option goerror
}.

(** The effects of the program on the file system, in the order they
    happen. *)
Inductive fsop : Type :=
| MkdirAll (path : string)
| WriteFile (path : string) (content : string)
| Rename (from to : string).

(** [path] lies inside the directory [root]. *)
Definition inside (root path : string) : bool :=
  String.eqb path root || String.prefix (root +:+ "/") path.

(** The check of the rename pass of [readDatabase] on a target path:
    [(len(to) > 0 && to[0] == '/') || (len(to) > 3 && to[0:3] == "../")]. *)
Definition maliciousPath (to : string) : bool :=
  ((0 <? String.length to)%nat && String.prefix "/" to)
  || ((3 <? String.length to)%nat && String.eqb (String.substring 0 3 to) "../").

Section Extract.

(** The operating system's answer to [os.OpenFile(path,
    O_WRONLY|O_CREATE|O_TRUNC, mode)] and to [os.Rename]. The results of
    [os.MkdirAll] the program throws away; a failure of a deferred [Close],
    which the program turns into a panic, is not modelled. *)
Variable OpenFile_ok : string -> bool.
Variable Rename_ok : string -> string -> bool.

Variables metaDest mediaDest : string.

(** The closure [extractAndWriteFile] of [extractArchive]: the error it
    returns, and the trace extended by its effects. *)
Definition extractAndWriteFile (f : zipFile) (tr : list fsop)
  : option goerror * list fsop :=
  match OpenErr f with
  | Some e => (Some e, tr)
  | None =>
      if IsDir f then
        (None, tr ++ [MkdirAll (filepath.Join [metaDest; Name f])])
      else
        let path :=
          if String.eqb (Name f) "media" || String.eqb (Name f) "collection.anki2"
          then filepath.Join [metaDest; Name f]
          else filepath.Join [mediaDest; Name f] in
        let tr := tr ++ [MkdirAll (filepath.Dir path)] in
        if OpenFile_ok path then
          (CopyErr f, tr ++ [WriteFile path (Content f)])
        else (Some (ErrOS path), tr)
  end.

(** The loop [for _, f := range r.File] of [extractArchive]. *)
Fixpoint extractFiles (files : list zipFile) (tr : list fsop)
  : option goerror * list fsop :=
  match files with
  | [] => (None, tr)
  | f :: rest =>
      match extractAndWriteFile f tr with
      | (Some e, tr') => (Some e, tr')
      | (None, tr') => extractFiles rest tr'
      end
  end.

(** [extractArchive(src, metaDest, mediaDest)]; [r] stands for what
    [zip.OpenReader(src)] yields: the entries of the archive, or an
    error. *)
Definition extractArchive (r : list zipFile + goerror) : option goerror * list fsop :=
  match r with
  | inl files => extractFiles files []
  | inr e => (Some e, [])
  end.

(** The rename loop of [readDatabase] over the media manifest, in the
    order [media] gives (the order of a [range] over the map);
    [Output] is [conf.Output]. *)
Fixpoint renameMedia (Output : string) (media : list (string * string)) (tr : list fsop)
  : option goerror * list fsop :=
  match media with
  | [] => (None, tr)
  | (filename, original) :: rest =>
      let from := filepath.Join [Output; filename] in
      let to := filepath.Join [Output; original] in
      if maliciousPath to then (Some ErrMalicious, tr)
      else if Rename_ok from to then renameMedia Output rest (tr ++ [Rename from to])
      else (Some (ErrOS from), tr)
  end.

End Extract.

(* ===================================================================== *)
(** * Package regexp, for the one pattern of the program *)
(* ===================================================================== *)

Module regexp.

Definition newline : ascii := Ascii.ascii_of_nat 10.

(** The greedy [(.+)\]] after an occurrence of [\[sound:], on the text
    [s] that follows it: the index of the last closing bracket that has
    at least one byte before it and no line feed ([.] matches every
    byte but a line feed); [i] is the index of the head of [s] and
    [best] the last such bracket seen. *)
Fixpoint last_close (s : string) (i : nat) (best : option nat) : option nat :=
  match s with
  | EmptyString => best
  | String c s' =>
      if Ascii.eqb c newline then best
      else last_close s' (S i)
             (if Ascii.eqb c "]"%char && (1 <=? i)%nat then Some i else best)
  end.

(** A match of [\[sound:(.+)\]] that starts at the head of [s]: the text
    of group 1 and the length of the whole match. *)
Definition match_here (s : string) : option (string * nat) :=
  if String.prefix "[sound:" s then
    match last_close (String.substring 7 (String.length s - 7) s) 0 None with
    | Some k => Some (String.substring 7 k s, (7 + k + 1)%nat)
    | None => None
    end
  else None.

Definition is_name_char (c : ascii) : bool :=
  let n := N_of_ascii c in
  ((48 <=? n) && (n <=? 57) || (65 <=? n) && (n <=? 90)
   || (97 <=? n) && (n <=? 122) || (n =? 95))%N.

(** The longest run of letters, digits and underscores [s] starts with. *)
Fixpoint name_prefix (s : string) : string :=
  match s with
  | EmptyString => EmptyString
  | String c s' => if is_name_char c then String c (name_prefix s') else EmptyString
  end.

(** The text a reference [$name] stands for: the pattern has one group
    and no named group. *)
Definition group (whole cap1 name : string) : string :=
  if String.eqb name "0" then whole
  else if String.eqb name "1" then cap1
  else "".

(** [Regexp.Expand] on a template: [$name] takes the longest name
    possible, [$$] is a dollar sign, and a dollar sign followed by no name
    stands for itself. The form with braces is not modelled (the
    template of the program has none). *)
Fixpoint expand_from (whole cap1 : string) (skip : nat) (t : string) : string :=
  match t with
  | EmptyString => EmptyString
  | String c t' =>
      match skip with
      | S k => expand_from whole cap1 k t'
      | O =>
          if Ascii.eqb c "$"%char then
            if String.prefix "$" t' then String c (expand_from whole cap1 1 t')
            else match name_prefix t' with
                 | EmptyString => String c (expand_from whole cap1 O t')
                 | name => group whole cap1 name
                           +:+ expand_from whole cap1 (String.length name) t'
                 end
          else String c (expand_from whole cap1 O t')
      end
  end.

Definition expand (template whole cap1 : string) : string :=
  expand_from whole cap1 O template.

Fixpoint replace_all_from (repl : string) (skip : nat) (s : string) : string :=
  match s with
  | EmptyString => EmptyString
  | String c s' =>
      match skip with
      | S k => replace_all_from repl k s'
      | O =>
          match match_here s with
          | Some (cap1, len) =>
              expand repl (String.substring 0 len s) cap1
              +:+ replace_all_from repl (Nat.pred len) s'
          | None => String c (replace_all_from repl O s')
          end
      end
  end.

(** [regexp.MustCompile(`\[sound:(.+)\]`).ReplaceAllString(s, repl)]:
    the matches are found from left to right, each as long as the greedy
    [.+] makes it, and do not overlap. *)
Definition ReplaceAllString (s repl : string) : string :=
  replace_all_from repl O s.

End regexp.

Definition dq : string := String (Ascii.ascii_of_nat 34) EmptyString.

(** The constant [AUDIO_ELEMENT]. *)
Definition AUDIO_ELEMENT : string :=
  "<audio controls><source src=" +:+ dq +:+ "$1" +:+ dq +:+ " type=" +:+ dq
  +:+ "audio/3gpp" +:+ dq +:+ "><source src=" +:+ dq +:+ "$1." +:+ dq +:+ " type="
  +:+ dq +:+ "audio/ogg" +:+ dq
  +:+ "> Your browser does not support the <code>audio</code> element.</audio>".

(* ===================================================================== *)
(** * database_model.go: the rows *)
(* ===================================================================== *)

Module Card.
Record t : Type := mk {
  Id : Z; Nid : Z; Did : Z; Ord : Z; Mod : SecondsTime; Usn : Z; Typ : Z;
  Queue : Z; Due : Z; Ivl : Z; Factor : Z; Reps : Z; Lapses : Z; Left : Z;
  Odue : Z; Odid : Z; Flags : Z; Data : string
}.
End Card.

Module Collection.
Record t : Type := mk {
  Id : Z; Crt : MilliSecondsTime; Mod : MilliSecondsTime; Scm : MilliSecondsTime;
  Ver : Z; Dty : Z; Usn : Z; Ls : Z; Conf : string; Models : string;
  Decks : string; Dconf : string; Tags : string
}.
End Collection.

Module Note.
Record t : Type := mk {
  Id : Z; Guid : string; Mid : Z; Mod : Z; Usn : Z; Tags : string;
  Flds : string; Sfld : string; Csum : Z; Flags : Z; Data : string
}.
End Note.

(* ===================================================================== *)
(** * main.go: makeQueries *)
(* ===================================================================== *)

(** [Configuration]. *)
Record Configuration : Type := mkConfiguration {
  Input : string;
  Output : string;
  Title : string;
  Description : string
}.

(** [DBData]; a card is the array [[3]string] of style sheet, front and
    back. *)
Record DBData : Type := mkDBData {
  dTitle : string;
  dFilepath : string;
  dNow : string;
  dDescription : string;
  dCards : list (string * string * string)
}.

Definition set_Title (d : DBData) (t : string) : DBData :=
  mkDBData t (dFilepath d) (dNow d) (dDescription d) (dCards d).

Definition set_Description (d : DBData) (t : string) : DBData :=
  mkDBData (dTitle d) (dFilepath d) (dNow d) t (dCards d).

Definition append_Card (d : DBData) (c : string * string * string) : DBData :=
  mkDBData (dTitle d) (dFilepath d) (dNow d) (dDescription d) (dCards d ++ [c]).

(** What the three [db.Select] calls leave in [cols], [notes] and [cards]
    (their errors are dropped by the program). *)
Record Database : Type := mkDatabase {
  cols : list Collection.t;
  notes : list Note.t;
  cards : list Card.t
}.

(** A JSON value as [encoding/json] stores it in an [interface{}]. *)
Inductive json : Type :=
| JNull
| JBool (b : bool)
| JNumber (f : float)
| JString (s : string)
| JArray (l : list json)
| JObject (m : gmap string json).

(** The type assertions [x.(string)], [x.(float64)], [x.([]interface{})]
    and [x.(map[string]interface{})] on the result of a map lookup; a
    missing key gives the nil interface, on which every assertion panics. *)
Definition assert_string (x : option json) : outcome string :=
  match x with Some (JString s) => Ok s | _ => Panic PanicTypeAssert end.

Definition assert_float64 (x : option json) : outcome float :=
  match x with Some (JNumber f) => Ok f | _ => Panic PanicTypeAssert end.

Definition assert_slice (x : option json) : outcome (list json) :=
  match x with Some (JArray l) => Ok l | _ => Panic PanicTypeAssert end.

Definition assert_map (x : option json) : outcome (gmap string json) :=
  match x with Some (JObject m) => Ok m | _ => Panic PanicTypeAssert end.

(** The lookup tables [makeQueries] builds before it visits the cards. *)
Record Tables : Type := mkTables {
  decksInfo : gmap Z string;
  css : gmap Z string;
  fieldReplacements : gmap Z (gmap string Z);
  templates : gmap Z (gmap Z (string * string));
  nid2mid : gmap Z Z;
  nid2flds : gmap Z string
}.

(** The orders the runtime picks for the [range] loops over maps, as
    functions of the map ranged over: one for each of the four loops over
    [decks] and [models], and one for every card (by its number), for the
    loop over [fieldReplacements[mid]]. *)
Record Schedule : Type := mkSchedule {
  decks_order : gmap string (gmap string json) -> list (string * gmap string json);
  css_order : gmap string (gmap string json) -> list (string * gmap string json);
  flds_order : gmap string (gmap string json) -> list (string * gmap string json);
  tmpls_order : gmap string (gmap string json) -> list (string * gmap string json);
  fields_order : nat -> gmap string Z -> list (string * Z)
}.

(** [l] is an order in which a [range] may visit the map [m]: every entry
    once. *)
Definition range_of {K V : Type} `{Countable K} (m : gmap K V) (l : list (K * V)) : Prop :=
  Permutation l (map_to_list m).

(** A schedule the runtime may follow. *)
Definition schedule_ok (sched : Schedule) : Prop :=
  (forall m, range_of m (decks_order sched m))
  /\ (forall m, range_of m (css_order sched m))
  /\ (forall m, range_of m (flds_order sched m))
  /\ (forall m, range_of m (tmpls_order sched m))
  /\ (forall i m, range_of m (fields_order sched i m)).

Definition input : string := "<input type='text' placeholder='solution' class='type' />".

Definition unit_separator : ascii := Ascii.ascii_of_nat 31.

(** [fields[index]]: the bounds check of the language. *)
Definition index_string (fields : list string) (index : Z) : outcome string :=
  if (0 <=? index) && (index <? Z.of_nat (length fields))
  then Ok (nth (Z.to_nat index) fields EmptyString)
  else Panic (PanicIndex index (length fields)).

(** The declared ordinal of [p] is an index of [fields]. *)
Definition in_boundsb (fields : list string) (p : string * Z) : bool :=
  (0 <=? snd p) && (snd p <? Z.of_nat (length fields)).

(** The body of the loop over [fieldReplacements[mid]]: the five
    replacements for one declared field. *)
Definition replaceField (fields : list string) (fieldname : string) (index : Z)
  (fmt : string * string) : outcome (string * string) :=
  let* v := index_string fields index in
  let fmt0 := strings.Replace (fst fmt) ("{{" +:+ fieldname +:+ "}}") v in
  let fmt1 := strings.Replace (snd fmt) ("{{" +:+ fieldname +:+ "}}") v in
  let fmt0 := strings.Replace fmt0 ("{{type:" +:+ fieldname +:+ "}}") input in
  let fmt1 := strings.Replace fmt1 ("{{type:" +:+ fieldname +:+ "}}") input in
  let fmt1 := strings.Replace fmt1 "{{FrontSide}}" fmt0 in
  Ok (fmt0, fmt1).

(** The loop [for fieldname, index := range fieldReplacements[mid]], in
    the order [order]. *)
Fixpoint replaceFields (order : list (string * Z)) (fields : list string)
  (fmt : string * string) : outcome (string * string) :=
  match order with
  | [] => Ok fmt
  | (fieldname, index) :: rest =>
      let* fmt' := replaceField fields fieldname index fmt in
      replaceFields rest fields fmt'
  end.

(** The field and type replacements of one round, without the one of
    [{{FrontSide}}]. *)
Definition replaceFieldOnly (fields : list string) (fieldname : string) (index : Z)
  (fmt : string * string) : outcome (string * string) :=
  let* v := index_string fields index in
  let fmt0 := strings.Replace (fst fmt) ("{{" +:+ fieldname +:+ "}}") v in
  let fmt1 := strings.Replace (snd fmt) ("{{" +:+ fieldname +:+ "}}") v in
  let fmt0 := strings.Replace fmt0 ("{{type:" +:+ fieldname +:+ "}}") input in
  let fmt1 := strings.Replace fmt1 ("{{type:" +:+ fieldname +:+ "}}") input in
  Ok (fmt0, fmt1).

Fixpoint replaceFieldsOnly (order : list (string * Z)) (fields : list string)
  (fmt : string * string) : outcome (string * string) :=
  match order with
  | [] => Ok fmt
  | (fieldname, index) :: rest =>
      let* fmt' := replaceFieldOnly fields fieldname index fmt in
      replaceFieldsOnly rest fields fmt'
  end.

(** The substitution in the words of the specification, to compare the
    loop of the program with: all field and type replacements of the card
    first, then one replacement of [{{FrontSide}}] in the answer by the
    substituted question. *)
Definition spec_replaceFields (order : list (string * Z)) (fields : list string)
  (fmt : string * string) : outcome (string * string) :=
  let* fmt' := replaceFieldsOnly order fields fmt in
  Ok (fst fmt', strings.Replace (snd fmt') "{{FrontSide}}" (fst fmt')).

(** The front text of a substitution that ends well. *)
Definition front (m : outcome (string * string)) : outcome string :=
  let* fmt := m in Ok (fst fmt).

Section Queries.

(** [json.Unmarshal] into a [map[string]map[string]interface{}]: the
    parsed map, or [None] when it returns an error. *)
Variable Unmarshal : string -> option (gmap string (gmap string json)).

(** The loop that fills [decksInfo]. *)
Fixpoint build_decksInfo (order : list (string * gmap string json)) (acc : gmap Z string)
  : outcome (gmap Z string) :=
  match order with
  | [] => Ok acc
  | (did, d) :: rest =>
      let* didInt := strconv.Atoi did in
      let* name := assert_string (d !! "name") in
      build_decksInfo rest (<[didInt := name]> acc)
  end.

(** The loop that fills [css]. *)
Fixpoint build_css (order : list (string * gmap string json)) (acc : gmap Z string)
  : outcome (gmap Z string) :=
  match order with
  | [] => Ok acc
  | (mid, m) :: rest =>
      let* midInt := strconv.Atoi mid in
      let* style := assert_string (m !! "css") in
      build_css rest (<[midInt := style]> acc)
  end.

(** The inner loop over [m["flds"]]. *)
Fixpoint build_fields (flds : list json) (acc : gmap string Z) : outcome (gmap string Z) :=
  match flds with
  | [] => Ok acc
  | f :: rest =>
      let* fTyped := assert_map (Some f) in
      let* ord := assert_float64 (fTyped !! "ord") in
      let* fieldname := assert_string (fTyped !! "name") in
      build_fields rest (<[fieldname := int64_of_float64 ord]> acc)
  end.

(** The loop that fills [fieldReplacements]. *)
Fixpoint build_fieldReplacements (order : list (string * gmap string json))
  (acc : gmap Z (gmap string Z)) : outcome (gmap Z (gmap string Z)) :=
  match order with
  | [] => Ok acc
  | (mid, m) :: rest =>
      let* midInt := strconv.Atoi mid in
      let* flds := assert_slice (m !! "flds") in
      let* inner := build_fields flds (default ∅ (acc !! midInt)) in
      build_fieldReplacements rest (<[midInt := inner]> acc)
  end.

(** The inner loop over [m["tmpls"]]. *)
Fixpoint build_tmpls (tmpls : list json) (acc : gmap Z (string * string))
  : outcome (gmap Z (string * string)) :=
  match tmpls with
  | [] => Ok acc
  | t :: rest =>
      let* tTyped := assert_map (Some t) in
      let* qfmt := assert_string (tTyped !! "qfmt") in
      let* afmt := assert_string (tTyped !! "afmt") in
      let* ord := assert_float64 (tTyped !! "ord") in
      build_tmpls rest (<[int64_of_float64 ord := (qfmt, afmt)]> acc)
  end.

(** The loop that fills [templates]. *)
Fixpoint build_templates (order : list (string * gmap string json))
  (acc : gmap Z (gmap Z (string * string))) : outcome (gmap Z (gmap Z (string * string))) :=
  match order with
  | [] => Ok acc
  | (mid, m) :: rest =>
      let* midInt := strconv.Atoi mid in
      let* tmpls := assert_slice (m !! "tmpls") in
      let* inner := build_tmpls tmpls (default ∅ (acc !! midInt)) in
      build_templates rest (<[midInt := inner]> acc)
  end.

(** The loop over [notes] that fills [nid2mid] and [nid2flds]. *)
Fixpoint build_notes (ns : list Note.t) (acc : gmap Z Z * gmap Z string)
  : gmap Z Z * gmap Z string :=
  match ns with
  | [] => acc
  | n :: rest =>
      build_notes rest (<[Note.Id n := Note.Mid n]> (fst acc),
                        <[Note.Id n := Note.Flds n]> (snd acc))
  end.

(** All the tables, from the parsed [decks] and [models] and the notes. *)
Definition build_tables (sched : Schedule) (models decks : gmap string (gmap string json))
  (ns : list Note.t) : outcome Tables :=
  let* di := build_decksInfo (decks_order sched decks) ∅ in
  let* cs := build_css (css_order sched models) ∅ in
  let* fr := build_fieldReplacements (flds_order sched models) ∅ in
  let* tp := build_templates (tmpls_order sched models) ∅ in
  let nn := build_notes ns (∅, ∅) in
  Ok (mkTables di cs fr tp (fst nn) (snd nn)).

Section Cards.

Variable T : Tables.

Definition card_mid (c : Card.t) : Z := default 0 (nid2mid T !! Card.Nid c).

Definition card_fields (c : Card.t) : list string :=
  strings.Split (default EmptyString (nid2flds T !! Card.Nid c)) unit_separator.

Definition card_fmt (c : Card.t) : string * string :=
  default (EmptyString, EmptyString)
    (default ∅ (templates T !! card_mid c) !! Card.Ord c).

(** The map [fieldReplacements[mid]] the inner loop of a card ranges
    over. *)
Definition card_replacements (c : Card.t) : gmap string Z :=
  default ∅ (fieldReplacements T !! card_mid c).

(** Every ordinal the model of the card declares is an index of the
    field list of its note. *)
Definition card_in_boundsb (c : Card.t) : bool :=
  forallb (in_boundsb (card_fields c)) (map_to_list (card_replacements c)).

(** The text of a card after the loop over its declared fields. *)
Definition substituteCard (order : list (string * Z)) (c : Card.t)
  : outcome (string * string) :=
  replaceFields order (card_fields c) (card_fmt c).

(** The deck id of the last card of [cs], or [d] when there is none. *)
Definition last_did (cs : list Card.t) (d : Z) : Z :=
  match last cs with Some c => Card.Did c | None => d end.

(** The deck check of the loop. *)
Definition ambiguous (deckId : Z) (c : Card.t) (data : DBData) : bool :=
  negb (deckId =? -1) && negb (deckId =? Card.Did c) && String.eqb (dTitle data) "".

(** The card [makeQueries] appends: style sheet, front, back. *)
Definition rendered (c : Card.t) (fmt : string * string) : string * string * string :=
  (default EmptyString (css T !! card_mid c),
   regexp.ReplaceAllString (fst fmt) AUDIO_ELEMENT,
   regexp.ReplaceAllString (snd fmt) AUDIO_ELEMENT).

(** The loop [for _, c := range cards], from the card number [i] on:
    the value of [deckId] after the loop, or the error or panic that
    ends it, and [data] as the loop leaves it. *)
Fixpoint resolveCards (orders : nat -> gmap string Z -> list (string * Z))
  (i : nat) (cs : list Card.t)
  (deckId : Z) (data : DBData) : outcome Z * DBData :=
  match cs with
  | [] => (Ok deckId, data)
  | c :: rest =>
      match substituteCard (orders i (card_replacements c)) c with
      | Panic p => (Panic p, data)
      | Err e => (Err e, data)
      | Ok fmt =>
          if ambiguous deckId c data then (Err ErrMultipleDecks, data)
          else resolveCards orders (S i) rest (Card.Did c)
                 (append_Card data (rendered c fmt))
      end
  end.

End Cards.

(** [conf.Title] and [conf.Description], copied when not empty. *)
Definition apply_conf (conf : Configuration) (data : DBData) : DBData :=
  let data := if String.eqb (Title conf) "" then data else set_Title data (Title conf) in
  if String.eqb (Description conf) "" then data else set_Description data (Description conf).

(** [makeQueries(dbFile, data, conf)]: what it returns, and [data] as it
    leaves it. [db] is the content of [dbFile] as the three queries read
    it; [sqlx.Open] with the registered driver only records the file
    name and does not fail. *)
Definition makeQueries (db : Database) (sched : Schedule) (data : DBData)
  (conf : Configuration) : outcome unit * DBData :=
  match cols db with
  | [col] =>
      match cards db with
      | [] => (Err ErrNoCards, data)
      | _ =>
          match Unmarshal (Collection.Models col) with
          | None => (Err ErrJSON, data)
          | Some models =>
              match Unmarshal (Collection.Decks col) with
              | None => (Err ErrJSON, data)
              | Some decks =>
                  let data := apply_conf conf data in
                  match build_tables sched models decks (notes db) with
                  | Err e => (Err e, data)
                  | Panic p => (Panic p, data)
                  | Ok T =>
                      match resolveCards T (fields_order sched) O (cards db) (-1) data with
                      | (Ok deckId, data') =>
                          (Ok tt, set_Title data' (default EmptyString (decksInfo T !! deckId)))
                      | (Err e, data') => (Err e, data')
                      | (Panic p, data') => (Panic p, data')
                      end
                  end
              end
          end
      end
  | _ => (Err (ErrCollections (length (cols db))), data)
  end.

End Queries.

(* ===================================================================== *)
(** * main.go: main, readMediaFile and readDatabase *)
(* ===================================================================== *)

Definition set_Input (c : Configuration) (a : string) : Configuration :=
  mkConfiguration a (Output c) (Title c) (Description c).

Definition set_Output (c : Configuration) (a : string) : Configuration :=
  mkConfiguration (Input c) a (Title c) (Description c).

Definition set_conf_Title (c : Configuration) (a : string) : Configuration :=
  mkConfiguration (Input c) (Output c) a (Description c).

Definition set_conf_Description (c : Configuration) (a : string) : Configuration :=
  mkConfiguration (Input c) (Output c) (Title c) a.

(** How [main] goes on after its arguments: it calls [generateHTMLPage]
    with a configuration, or it has printed the help and left with an
    exit code. *)
Inductive invocation : Type :=
| Run (conf : Configuration)
| Exit (code : Z).

(** [len(a) > 0 && a[0] == '-']. *)
Definition is_option (a : string) : bool :=
  match a with
  | String c _ => Ascii.eqb c "-"
  | EmptyString => false
  end.

(** [a[1:]] for an [a] that is not empty. *)
Definition tail (a : string) : string :=
  match a with
  | String _ r => r
  | EmptyString => EmptyString
  end.

(** The loop of [main] over [os.Args[1:]]; [flag] is the last option
    seen, without its first dash. *)
Fixpoint parseArgs (args : list string) (flag : string) (conf : Configuration) : invocation :=
  match args with
  | [] => Run conf
  | a :: rest =>
      if is_option a then parseArgs rest (tail a) conf
      else if String.eqb flag "o" || String.eqb flag "-output"
      then parseArgs rest flag (set_Output conf a)
      else if String.eqb flag "t" || String.eqb flag "-title"
      then parseArgs rest flag (set_conf_Title conf a)
      else if String.eqb flag "d" || String.eqb flag "-description"
      then parseArgs rest flag (set_conf_Description conf a)
      else if String.eqb flag "h" || String.eqb flag "-help"
      then Exit 0
      else if negb (String.eqb (Input conf) "") then Exit 1
      else parseArgs rest flag (set_Input conf a)
  end.

(** Whether [flag] is one of the options that take a value. *)
Definition value_option (flag : string) : bool :=
  String.eqb flag "o" || String.eqb flag "-output"
  || String.eqb flag "t" || String.eqb flag "-title"
  || String.eqb flag "d" || String.eqb flag "-description".

(** [main] up to its call of [generateHTMLPage]: the loop, then the
    default of the output directory. *)
Definition main_conf (args : list string) : invocation :=
  match parseArgs args "" (mkConfiguration "" "" "" "") with
  | Run conf => Run (if String.eqb (Output conf) "" then set_Output conf "out" else conf)
  | Exit code => Exit code
  end.

(** The effects of [readDatabase]: those on the files, and the deferred
    [os.RemoveAll]. *)
Inductive effect : Type :=
| Fs (op : fsop)
| RemoveAll (path : string).

(** What [readDatabase] gets from outside the program: the temporary
    directory, the opened archive, the answers of the operating system,
    the content of a file after given effects ([None] when it cannot be
    opened), the parsed manifest, the order of the [range] over it, the
    rows of the database file after given effects, and what [makeQueries]
    takes. *)
Record World : Type := mkWorld {
  w_TempDir : string + goerror;
  w_OpenReader : string -> list zipFile + goerror;
  w_OpenFile_ok : string -> bool;
  w_Rename_ok : string -> string -> bool;
  w_ReadFile : list fsop -> string -> option string;
  w_UnmarshalMedia : string -> option (gmap string string);
  w_media_order : gmap string string -> list (string * string);
  w_Select : list fsop -> string -> Database;
  w_Unmarshal : string -> option (gmap string (gmap string json));
  w_sched : Schedule;
  w_Now : string
}.

(** [readMediaFile(mediaFile, mediaData)]: the map after the call, or the
    error. An error of [ioutil.ReadAll] is dropped by the program; the
    manifest is parsed from what was read. *)
Definition readMediaFile (w : World) (tr : list fsop) (mediaFile : string)
  (mediaData : gmap string string) : gmap string string + goerror :=
  match w_ReadFile w tr mediaFile with
  | None => inr (ErrOS mediaFile)
  | Some content =>
      match w_UnmarshalMedia w content with
      | None => inr ErrJSON
      | Some m => inl (m ∪ mediaData)
      end
  end.

(** [readDatabase(data, conf)]: what it returns, [data] as it leaves it,
    and its effects. *)
Definition readDatabase (w : World) (data : DBData) (conf : Configuration)
  : outcome unit * DBData * list effect :=
  match w_TempDir w with
  | inr e => (Err e, data, [])
  | inl tempDir =>
      let tr0 := [MkdirAll (Output conf)] in
      match extractArchive (w_OpenFile_ok w) tempDir (Output conf)
              (w_OpenReader w (Input conf)) with
      | (Some e, trx) => (Err e, data, map Fs (tr0 ++ trx) ++ [RemoveAll tempDir])
      | (None, trx) =>
          let tr1 := tr0 ++ trx in
          match readMediaFile w tr1 (filepath.Join [tempDir; "media"]) ∅ with
          | inr e => (Err e, data, map Fs tr1 ++ [RemoveAll tempDir])
          | inl media =>
              match renameMedia (w_Rename_ok w) (Output conf) (w_media_order w media) tr1 with
              | (Some e, tr2) => (Err e, data, map Fs tr2 ++ [RemoveAll tempDir])
              | (None, tr2) =>
                  let data1 :=
                    mkDBData (dTitle data) (Input conf) (w_Now w) (dDescription data)
                      (dCards data) in
                  let '(r, data2) :=
                    makeQueries (w_Unmarshal w)
                      (w_Select w tr2 (filepath.Join [tempDir; "collection.anki2"]))
                      (w_sched w) data1 conf in
                  (r, data2, map Fs tr2 ++ [RemoveAll tempDir])
              end
          end
      end
  end.

(* ===================================================================== *)
(** * Notions used to state further properties *)
(* ===================================================================== *)

(** The path [extractAndWriteFile] computes for a file entry. *)
Definition entry_path (metaDest mediaDest : string) (f : zipFile) : string :=
  if String.eqb (Name f) "media" || String.eqb (Name f) "collection.anki2"
  then filepath.Join [metaDest; Name f]
  else filepath.Join [mediaDest; Name f].

(** The files a trace writes, with their contents, in order. *)
Definition writes (tr : list fsop) : list (string * string) :=
  flat_map (fun op => match op with WriteFile p c => [(p, c)] | _ => [] end) tr.

(** The byte [c] does not occur in [s]. *)
Fixpoint free_of (c : ascii) (s : string) : bool :=
  match s with
  | EmptyString => true
  | String a s' => negb (Ascii.eqb a c) && free_of c s'
  end.

(** A plain file name: not empty, without a slash, neither [.] nor [..]. *)
Definition plain_name (s : string) : bool :=
  free_of "/" s && negb (String.eqb s "") && negb (String.eqb s ".")
  && negb (String.eqb s "..").

(* ===================================================================== *)
(** * Sample inputs *)
(* ===================================================================== *)

Module Sample.

Definition epoch : time.Time := time.mkTime 0 0 time.UTCLoc.

Definition note (id mid : Z) (flds : string) : Note.t :=
  Note.mk id "" mid 0 0 "" flds "" 0 0 "".

Definition card (nid did ord : Z) : Card.t :=
  Card.mk 0 nid did ord epoch 0 0 0 0 0 0 0 0 0 0 0 0 "".

(** A collection row whose [models] and [decks] columns hold the texts
    [M] and [D]. *)
Definition col (M D : string) : Collection.t :=
  Collection.mk 1 epoch epoch epoch 11 0 0 0 "" M D "" "".

Definition fld (name : string) (ord : float) : json :=
  JObject (<["name" := JString name]> (<["ord" := JNumber ord]> ∅)).

Definition tmpl (qfmt afmt : string) (ord : float) : json :=
  JObject (<["qfmt" := JString qfmt]> (<["afmt" := JString afmt]> (<["ord" := JNumber ord]> ∅))).

(** One model, number 10, with the fields Front (0) and Back (1) and one
    template. *)
Definition model (qfmt afmt : string) : gmap string (gmap string json) :=
  <["10" := <["css" := JString ".card{}"]>
            (<["flds" := JArray [fld "Front" 0; fld "Back" 1]]>
            (<["tmpls" := JArray [tmpl qfmt afmt 0]]> ∅))]> ∅.

(** The decks 1 (Default) and 2 (Other). *)
Definition decks : gmap string (gmap string json) :=
  <["1" := <["name" := JString "Default"]> ∅]>
  (<["2" := <["name" := JString "Other"]> ∅]> ∅).

(** A decoder that knows the two texts [models] and [decks]. *)
Definition decoder (models : gmap string (gmap string json)) (s : string)
  : option (gmap string (gmap string json)) :=
  if String.eqb s "models" then Some models
  else if String.eqb s "decks" then Some decks
  else None.

Definition us : string := String unit_separator EmptyString.

(** The runtime visits every map in the order of [map_to_list], or in
    the reverse order for the fields of a card. *)
Definition forward : Schedule :=
  mkSchedule map_to_list map_to_list map_to_list map_to_list (fun _ => map_to_list).

Definition backward : Schedule :=
  mkSchedule map_to_list map_to_list map_to_list map_to_list
    (fun _ m => rev (map_to_list m)).

(** [data] and [conf] as [generateHTMLPage] and [main] pass them for
    [./anki2html x.apkg]. *)
Definition data0 : DBData := mkDBData "" "x.apkg" "2026/10/31" "" [].
Definition conf0 : Configuration := mkConfiguration "x.apkg" "out" "" "".

(** ... and for [./anki2html x.apkg -t Mine]. *)
Definition conf_titled : Configuration := mkConfiguration "x.apkg" "out" "Mine" "".

Definition db (cs : list Card.t) (ns : list Note.t) : Database :=
  mkDatabase [col "models" "decks"] ns cs.

(** The model of the FrontSide example of the specification. *)
Definition frontside_model : gmap string (gmap string json) :=
  model "{{Front}}" "{{FrontSide}}<hr>{{Back}}".

(** The tables [makeQueries] builds for the sample model and notes. *)
Definition tables (models : gmap string (gmap string json)) (ns : list Note.t) : Tables :=
  match build_tables forward models decks ns with
  | Ok T => T
  | _ => mkTables ∅ ∅ ∅ ∅ ∅ ∅
  end.

Definition passwd_entry : zipFile :=
  mkZipFile "../../etc/passwd" false None "root::0:0" None.

Definition abs_entry : zipFile :=
  mkZipFile "/etc/passwd" false None "root::0:0" None.

End Sample.

Module SampleWorld.

(** The content of the file last written to [path] in a trace. *)
Fixpoint last_write (tr : list fsop) (path : string) (found : option string) : option string :=
  match tr with
  | [] => found
  | WriteFile p c :: rest =>
      last_write rest path (if String.eqb p path then Some c else found)
  | _ :: rest => last_write rest path found
  end.

(** A package with the database, the manifest and one media file. *)
Definition package : list zipFile :=
  [mkZipFile "collection.anki2" false None "rows" None;
   mkZipFile "media" false None "manifest" None;
   mkZipFile "0" false None "png" None].

Definition manifest : gmap string string := <["0" := "cat.png"]> ∅.

(** A run on a system that lets every file be created and renamed. *)
Definition world : World :=
  mkWorld (inl "/tmp/anki2html1") (fun _ => inl package) (fun _ => true) (fun _ _ => true)
    (fun tr path => last_write tr path None)
    (fun s => if String.eqb s "manifest" then Some manifest else None)
    map_to_list
    (fun tr path =>
       match last_write tr path None with
       | Some _ => Sample.db [Sample.card 100 1 0]
                     [Sample.note 100 10 ("Q" +:+ Sample.us +:+ "A")]
       | None => mkDatabase [] [] []
       end)
    (Sample.decoder Sample.frontside_model) Sample.forward "2026/10/31".

Definition conf_absolute : Configuration := mkConfiguration "x.apkg" "/srv/out" "" "".

End SampleWorld.

(* ===================================================================== *)
(** * Properties: the timestamp codecs *)
(* ===================================================================== *)

Lemma wrap64_id (z : Z) : in_int64 z -> wrap64 z = z.
Proof.
  unfold in_int64, min_int64, max_int64, wrap64. intros Hz.
  rewrite Z.mod_small by lia. lia.
Qed.

Lemma wrap64_add_l (a b : Z) : wrap64 (wrap64 a + b) = wrap64 (a + b).
Proof.
  unfold wrap64.
  replace ((a + 2 ^ 63) mod 2 ^ 64 - 2 ^ 63 + b + 2 ^ 63)
    with ((a + 2 ^ 63) mod 2 ^ 64 + b) by lia.
  rewrite Z.add_mod_idemp_l by lia.
  f_equal. f_equal. lia.
Qed.

(** The seconds a time built by [time.Unix] gives back. *)
Lemma Time_Unix_of_seconds (sec ns : Z) (l : time.Location) :
  time.Time_Unix (time.mkTime (wrap64 (sec + time.unixToInternal)) ns l) = wrap64 sec.
Proof.
  unfold time.Time_Unix, time.internalToUnix. simpl.
  rewrite wrap64_add_l. f_equal. lia.
Qed.

(** Second resolution: decoding an epoch integer and encoding it again
    gives the integer back, for every [int64]. *)
Lemma SecondsTime_roundtrip_id (t : Z) :
  in_int64 t -> SecondsTime_roundtrip t = Ok (VInt64 t).
Proof.
  intros Ht. unfold SecondsTime_roundtrip, SecondsTime_Scan, SecondsTime_Value.
  cbn [bind]. unfold time.Unix, time.UTC. cbn [Z.ltb Z.leb Z.compare orb time.ext time.nsec].
  rewrite Time_Unix_of_seconds, wrap64_id by assumption. reflexivity.
Qed.

(** Millisecond resolution: what comes back is the quotient by 1000 taken
    as seconds plus the remainder taken as nanoseconds, in nanoseconds. *)
Lemma MilliSecondsTime_roundtrip_value (t : Z) :
  in_int64 t ->
  MilliSecondsTime_roundtrip t
  = Ok (VInt64 (wrap64 (Z.quot t 1000 * 1000000000 + Z.rem t 1000))).
Proof.
  intros Ht. unfold MilliSecondsTime_roundtrip, MilliSecondsTime_Scan, MilliSecondsTime_Value.
  cbn [bind]. do 2 f_equal.
  assert (Hq : in_int64 (Z.quot t 1000) /\ in_int64 (Z.quot t 1000 - 1)
               /\ -1000 < Z.rem t 1000 < 1000).
  { unfold in_int64, min_int64, max_int64 in *.
    pose proof (Z.quot_rem' t 1000). pose proof (Z.rem_bound_abs t 1000).
    pose proof (Z.rem_sign_nz t 1000). lia. }
  destruct Hq as (Hq & Hq1 & Hr).
  set (q := Z.quot t 1000) in *. set (r := Z.rem t 1000) in *.
  unfold time.Unix, time.UTC, time.Time_UnixNano.
  destruct (Z.ltb_spec r 0) as [Hneg | Hpos]; cbn [orb].
  - assert (Hn : Z.quot r 1000000000 = 0) by (apply Z.quot_small_iff; lia).
    rewrite Hn. cbn [Z.mul]. rewrite Z.add_0_r.
    rewrite (wrap64_id q) by assumption.
    replace (wrap64 0) with 0 by reflexivity. rewrite Z.sub_0_r.
    rewrite (wrap64_id r) by (unfold in_int64, min_int64, max_int64; lia).
    destruct (Z.ltb_spec r 0); [| lia].
    cbn [time.ext time.nsec].
    rewrite Time_Unix_of_seconds.
    rewrite !(wrap64_id (q - 1)) by assumption.
    rewrite (wrap64_id (r + 1000000000)) by (unfold in_int64, min_int64, max_int64; lia).
    rewrite wrap64_add_l. f_equal. lia.
  - destruct (Z.leb_spec 1000000000 r) as [Hbig | Hsmall]; [lia |].
    cbn [time.ext time.nsec].
    rewrite Time_Unix_of_seconds, (wrap64_id q) by assumption.
    rewrite wrap64_add_l. reflexivity.
Qed.

(** Below one second the remainder is the whole integer and the millisecond
    codec gives it back. *)
Lemma MilliSecondsTime_roundtrip_small (t : Z) :
  -1000 < t < 1000 -> MilliSecondsTime_roundtrip t = Ok (VInt64 t).
Proof.
  intros Ht.
  rewrite MilliSecondsTime_roundtrip_value
    by (unfold in_int64, min_int64, max_int64; lia).
  assert (Hq : Z.quot t 1000 = 0) by (apply Z.quot_small_iff; lia).
  pose proof (Z.quot_rem' t 1000) as Hqr. rewrite Hq in *.
  replace (Z.rem t 1000) with t by lia.
  rewrite wrap64_id by (unfold in_int64, min_int64, max_int64; lia). reflexivity.
Qed.

(** C2 (the code at the failing input). The stored millisecond timestamp
    1500000000000 (July 2017) is decoded by [MilliSecondsTime.Scan] and
    encoded again by [MilliSecondsTime.Value]: the result is
    1500000000000000000, a million times the input, not the input. (The
    second-resolution codec does give every integer back, see
    [SecondsTime_roundtrip_id].) *)
Theorem C2_milliseconds_roundtrip_differs :
  MilliSecondsTime_roundtrip 1500000000000 = Ok (VInt64 1500000000000000000)
  /\ MilliSecondsTime_roundtrip 1500000000000 <> Ok (VInt64 1500000000000)
  /\ SecondsTime_roundtrip 1500000000 = Ok (VInt64 1500000000).
Proof.
  split; [| split].
  - vm_compute. reflexivity.
  - vm_compute. discriminate.
  - vm_compute. reflexivity.
Qed.

(* ===================================================================== *)
(** * Properties: extraction *)
(* ===================================================================== *)

(** [extractArchive] has no check of the names: when the operating system
    lets every file be created and no entry fails to be read, every
    archive is extracted to the end. *)
Lemma extractFiles_accepts (metaDest mediaDest : string) (files : list zipFile) :
  Forall (fun f => OpenErr f = None /\ CopyErr f = None) files ->
  forall tr, fst (extractFiles (fun _ => true) metaDest mediaDest files tr) = None.
Proof.
  induction 1 as [| f files [Ho Hc] _ IH]; intros tr; simpl; [reflexivity |].
  unfold extractAndWriteFile. rewrite Ho.
  destruct (IsDir f); [apply IH |].
  rewrite Hc. apply IH.
Qed.

(** The rename pass of [readDatabase] does refuse such a name. *)
Example renameMedia_refuses :
  renameMedia (fun _ _ => true) "out" [("0", "../../etc/passwd")] []
  = (Some ErrMalicious, []).
Proof. vm_compute. reflexivity. Qed.

(** C1 (the code at the failing input). With the media directory [out],
    an archive whose only entry is the file [../../etc/passwd] is
    extracted without an error: the file is written to [../etc/passwd],
    outside [out], a path the check of the rename pass would refuse. The
    entry [/etc/passwd] is extracted without an error too (to
    [out/etc/passwd], inside [out]). *)
Theorem C1_extraction_writes_outside_root :
  extractArchive (fun _ => true) "/tmp/anki2html" "out" (inl [Sample.passwd_entry])
  = (None, [MkdirAll "../etc"; WriteFile "../etc/passwd" "root::0:0"])
  /\ inside "out" "../etc/passwd" = false
  /\ maliciousPath "../etc/passwd" = true
  /\ extractArchive (fun _ => true) "/tmp/anki2html" "out" (inl [Sample.abs_entry])
     = (None, [MkdirAll "out/etc"; WriteFile "out/etc/passwd" "root::0:0"]).
Proof. repeat split; vm_compute; reflexivity. Qed.

(* ===================================================================== *)
(** * Properties: sound references *)
(* ===================================================================== *)

(** One sound reference on a line becomes one audio element for its file
    name, and no bracket is left. *)
Example sound_single :
  regexp.ReplaceAllString "a [sound:bell.mp3] b" AUDIO_ELEMENT
  = "a " +:+ regexp.expand AUDIO_ELEMENT "[sound:bell.mp3]" "bell.mp3" +:+ " b"
  /\ strings.Contains (regexp.expand AUDIO_ELEMENT "[sound:bell.mp3]" "bell.mp3") "bell.mp3" = true
  /\ strings.Contains (regexp.ReplaceAllString "a [sound:bell.mp3] b" AUDIO_ELEMENT) "[sound:" = false.
Proof. repeat split; vm_compute; reflexivity. Qed.

(** C8 (the code at the failing input). A note whose first field holds two
    sound references on one line, in a model whose question format is
    [{{Front}}]: the greedy pattern takes both references as one match,
    the front text is one audio element for the file name
    [a.mp3] [sound:b.mp3], and the literal [[sound:b.mp3] is still in the
    output. *)
Theorem C8_two_references_one_match :
  let db := Sample.db [Sample.card 100 1 0]
              [Sample.note 100 10 ("[sound:a.mp3] [sound:b.mp3]" +:+ Sample.us +:+ "A")] in
  let dec := Sample.decoder (Sample.model "{{Front}}" "{{Back}}") in
  let front := regexp.expand AUDIO_ELEMENT "[sound:a.mp3] [sound:b.mp3]" "a.mp3] [sound:b.mp3" in
  makeQueries dec db Sample.forward Sample.data0 Sample.conf0
  = (Ok tt, mkDBData "Default" "x.apkg" "2026/10/31" "" [(".card{}", front, "A")])
  /\ strings.Contains front "[sound:b.mp3" = true.
Proof. split; vm_compute; reflexivity. Qed.

(* ===================================================================== *)
(** * Properties: the substitution loop of a card *)
(* ===================================================================== *)

Lemma replaceField_split (fields : list string) (fieldname : string) (index : Z)
  (fmt : string * string) :
  replaceField fields fieldname index fmt
  = let* fmt2 := replaceFieldOnly fields fieldname index fmt in
    Ok (fst fmt2, strings.Replace (snd fmt2) "{{FrontSide}}" (fst fmt2)).
Proof.
  unfold replaceField, replaceFieldOnly.
  destruct (index_string fields index); reflexivity.
Qed.

Lemma replaceFields_app (o1 o2 : list (string * Z)) (fields : list string) :
  forall fmt,
    replaceFields (o1 ++ o2) fields fmt
    = let* fmt1 := replaceFields o1 fields fmt in replaceFields o2 fields fmt1.
Proof.
  induction o1 as [| [n i] o1 IH]; intros fmt; simpl; [reflexivity |].
  destruct (replaceField fields n i fmt); simpl; [apply IH | reflexivity | reflexivity].
Qed.

(** The replacement of [{{FrontSide}}] never touches the front text. *)
Lemma replaceFields_front (order : list (string * Z)) (fields : list string) :
  forall fmt1 fmt2, fst fmt1 = fst fmt2 ->
    front (replaceFields order fields fmt1) = front (replaceFieldsOnly order fields fmt2).
Proof.
  induction order as [| [n i] order IH]; intros fmt1 fmt2 Hf; simpl.
  - now rewrite Hf.
  - rewrite replaceField_split. unfold replaceFieldOnly.
    destruct (index_string fields i); simpl; [| reflexivity | reflexivity].
    apply IH. simpl. now rewrite Hf.
Qed.

(** A model that declares no field: the loop has no round and
    [{{FrontSide}}] stays in the answer. *)
Example replaceFields_no_field :
  replaceFields [] ["Q"] ("Q", "{{FrontSide}}") = Ok ("Q", "{{FrontSide}}")
  /\ spec_replaceFields [] ["Q"] ("Q", "{{FrontSide}}") = Ok ("Q", "Q").
Proof. split; vm_compute; reflexivity. Qed.

(** C3 (the claim as stated fails). Fields A = [{{FrontSide}}] and B empty,
    question format [x{{A}}], answer format [{{FrontSide}}]: the loop
    replaces [{{FrontSide}}] in the round of A and again in the round of
    B and ends with the answer [xx{{FrontSide}}]; one replacement after
    all field and type replacements gives [x{{FrontSide}}]. *)
Lemma C3_counterexample :
  replaceFields [("A", 0); ("B", 1)] ["{{FrontSide}}"; ""] ("x{{A}}", "{{FrontSide}}")
  = Ok ("x{{FrontSide}}", "xx{{FrontSide}}")
  /\ spec_replaceFields [("A", 0); ("B", 1)] ["{{FrontSide}}"; ""] ("x{{A}}", "{{FrontSide}}")
     = Ok ("x{{FrontSide}}", "x{{FrontSide}}")
  /\ replaceFields [("A", 0); ("B", 1)] ["{{FrontSide}}"; ""] ("x{{A}}", "{{FrontSide}}")
     <> spec_replaceFields [("A", 0); ("B", 1)] ["{{FrontSide}}"; ""] ("x{{A}}", "{{FrontSide}}").
Proof. repeat split; vm_compute; try reflexivity; discriminate. Qed.

(** C3 (amended). The replacement of [{{FrontSide}}] is the last
    replacement of every declared field's round: the round of the last
    field ends with it, on the answer as the four field and type
    replacements of that round leave it. It never changes the front text,
    so the text it puts in there is the front text after the field and type
    replacements of all rounds. In the example of the specification the
    resolved card is (Q, Q<hr>A), whichever field is visited first. *)
Theorem C3_frontside_last_in_each_round :
  (forall order fieldname index fields fmt,
      replaceFields (order ++ [(fieldname, index)]) fields fmt
      = let* fmt1 := replaceFields order fields fmt in
        let* fmt2 := replaceFieldOnly fields fieldname index fmt1 in
        Ok (fst fmt2, strings.Replace (snd fmt2) "{{FrontSide}}" (fst fmt2)))
  /\ (forall order fields fmt,
         front (replaceFields order fields fmt) = front (replaceFieldsOnly order fields fmt))
  /\ (let db := Sample.db [Sample.card 100 1 0]
                  [Sample.note 100 10 ("Q" +:+ Sample.us +:+ "A")] in
      let dec := Sample.decoder Sample.frontside_model in
      dCards (snd (makeQueries dec db Sample.forward Sample.data0 Sample.conf0))
      = [(".card{}", "Q", "Q<hr>A")]
      /\ dCards (snd (makeQueries dec db Sample.backward Sample.data0 Sample.conf0))
         = [(".card{}", "Q", "Q<hr>A")]).
Proof.
  split; [| split].
  - intros order fieldname index fields fmt.
    rewrite replaceFields_app.
    destruct (replaceFields order fields fmt) as [fmt1 | e | p]; simpl; try reflexivity.
    rewrite replaceField_split.
    destruct (replaceFieldOnly fields fieldname index fmt1); reflexivity.
  - intros order fields fmt. now apply replaceFields_front.
  - split; vm_compute; reflexivity.
Qed.

(** The two schedules of the samples are schedules the runtime may follow. *)
Lemma forward_ok : schedule_ok Sample.forward.
Proof. repeat split; intros; unfold range_of; reflexivity. Qed.

Lemma backward_ok : schedule_ok Sample.backward.
Proof.
  repeat split; intros; unfold range_of; simpl; try reflexivity.
  symmetry. apply Permutation_rev.
Qed.

(** C10 (the code at the failing input). A note whose field Front holds the
    text [{{Back}}] and whose field Back holds [A], in a model with the
    question format [{{Front}}]: when the loop visits Front before Back
    the front text is [A], when it visits Back before Front it is
    [{{Back}}]. Both orders are orders of a [range] over the same map. *)
Theorem C10_order_changes_output :
  let db := Sample.db [Sample.card 100 1 0]
              [Sample.note 100 10 ("{{Back}}" +:+ Sample.us +:+ "A")] in
  let dec := Sample.decoder (Sample.model "{{Front}}" "{{Back}}") in
  schedule_ok Sample.forward /\ schedule_ok Sample.backward
  /\ dCards (snd (makeQueries dec db Sample.forward Sample.data0 Sample.conf0))
     = [(".card{}", "A", "A")]
  /\ dCards (snd (makeQueries dec db Sample.backward Sample.data0 Sample.conf0))
     = [(".card{}", "{{Back}}", "A")].
Proof.
  split; [apply forward_ok |]. split; [apply backward_ok |].
  split; vm_compute; reflexivity.
Qed.

(* ===================================================================== *)
(** * Properties: field indices *)
(* ===================================================================== *)

Lemma forallb_Permutation {A : Type} (f : A -> bool) (l l' : list A) :
  Permutation l l' -> forallb f l = forallb f l'.
Proof.
  induction 1 as [| x l l' _ IH | x y l | l l' l'' _ IH1 _ IH2]; simpl.
  - reflexivity.
  - now rewrite IH.
  - destruct (f x), (f y); reflexivity.
  - now rewrite IH1.
Qed.

Lemma replaceField_in_bounds (fields : list string) (n : string) (i : Z) (fmt : string * string) :
  in_boundsb fields (n, i) = true -> exists fmt', replaceField fields n i fmt = Ok fmt'.
Proof.
  unfold in_boundsb, replaceField, index_string. simpl. intros ->. simpl. eauto.
Qed.

Lemma replaceField_out_of_bounds (fields : list string) (n : string) (i : Z) (fmt : string * string) :
  in_boundsb fields (n, i) = false ->
  replaceField fields n i fmt = Panic (PanicIndex i (length fields)).
Proof.
  unfold in_boundsb, replaceField, index_string. simpl. intros ->. reflexivity.
Qed.

Lemma replaceFields_in_bounds (order : list (string * Z)) (fields : list string) :
  forallb (in_boundsb fields) order = true ->
  forall fmt, exists fmt', replaceFields order fields fmt = Ok fmt'.
Proof.
  induction order as [| [n i] order IH]; simpl; intros Hb fmt; [eauto |].
  apply andb_prop in Hb as [Hh Ht].
  destruct (replaceField_in_bounds fields n i fmt Hh) as [fmt1 ->]. simpl.
  now apply IH.
Qed.

Lemma replaceFields_out_of_bounds (order : list (string * Z)) (fields : list string) :
  forallb (in_boundsb fields) order = false ->
  forall fmt, exists i, replaceFields order fields fmt = Panic (PanicIndex i (length fields)).
Proof.
  induction order as [| [n i] order IH]; simpl; intros Hb fmt; [discriminate |].
  destruct (in_boundsb fields (n, i)) eqn:Hh.
  - destruct (replaceField_in_bounds fields n i fmt Hh) as [fmt1 ->]. simpl.
    now apply IH.
  - rewrite replaceField_out_of_bounds by assumption. simpl. eauto.
Qed.

(** The loop over the fields never returns an error value. *)
Lemma replaceFields_not_Err (order : list (string * Z)) (fields : list string) :
  forall fmt e, replaceFields order fields fmt <> Err e.
Proof.
  induction order as [| [n i] order IH]; simpl; intros fmt e; [discriminate |].
  unfold replaceField, index_string.
  destruct ((0 <=? i) && (i <? Z.of_nat (length fields))); simpl; [apply IH | discriminate].
Qed.

(** [card_in_boundsb] in terms of the lookups of the map. *)
Lemma card_in_boundsb_spec (T : Tables) (c : Card.t) :
  card_in_boundsb T c = true
  <-> forall name idx, card_replacements T c !! name = Some idx ->
        0 <= idx < Z.of_nat (length (card_fields T c)).
Proof.
  unfold card_in_boundsb. rewrite forallb_forall. split.
  - intros H name idx Hl.
    specialize (H (name, idx)). unfold in_boundsb in H. simpl in H.
    assert (Hin : In (name, idx) (map_to_list (card_replacements T c))).
    { apply list_elem_of_In, elem_of_map_to_list. exact Hl. }
    apply H in Hin. lia.
  - intros H [name idx] Hin.
    apply list_elem_of_In, elem_of_map_to_list in Hin. apply H in Hin.
    unfold in_boundsb. simpl. lia.
Qed.

Lemma substituteCard_in_bounds (T : Tables) (c : Card.t) (order : list (string * Z)) :
  range_of (card_replacements T c) order ->
  card_in_boundsb T c = true ->
  exists fmt, substituteCard T order c = Ok fmt.
Proof.
  intros Hr Hb. unfold substituteCard. apply replaceFields_in_bounds.
  rewrite (forallb_Permutation _ _ _ Hr). exact Hb.
Qed.

(** C9 (the claim as stated fails). The model declares the field Back
    with ordinal 1 and the note of the card has the one field [Q]: the loop
    ends in the run-time panic of the index expression, not in an error
    value. *)
Lemma C9_counterexample :
  let T := Sample.tables Sample.frontside_model [Sample.note 100 10 "Q"] in
  let c := Sample.card 100 1 0 in
  card_in_boundsb T c = false
  /\ substituteCard T (map_to_list (card_replacements T c)) c = Panic (PanicIndex 1 1)
  /\ (forall e, substituteCard T (map_to_list (card_replacements T c)) c <> Err e)
  /\ fst (makeQueries (Sample.decoder Sample.frontside_model)
            (Sample.db [c] [Sample.note 100 10 "Q"]) Sample.forward Sample.data0 Sample.conf0)
     = Panic (PanicIndex 1 1).
Proof.
  repeat split; try (vm_compute; reflexivity).
  intros e. vm_compute. discriminate.
Qed.

(** C9 (amended). For every card and every order of the loop over the
    declared fields: when some declared ordinal is not an index of the
    field list of the note, the loop panics with the index-out-of-range
    panic of the language (the program has no check of its own and returns
    no error value); when all are, the loop does not panic and yields the
    two texts. *)
Theorem C9_field_index_bounds (T : Tables) (c : Card.t) (order : list (string * Z)) :
  range_of (card_replacements T c) order ->
  (card_in_boundsb T c = false ->
     exists i, substituteCard T order c = Panic (PanicIndex i (length (card_fields T c))))
  /\ (card_in_boundsb T c = true -> exists fmt, substituteCard T order c = Ok fmt).
Proof.
  intros Hr. split; intros Hb.
  - unfold substituteCard. apply replaceFields_out_of_bounds.
    rewrite (forallb_Permutation _ _ _ Hr). exact Hb.
  - now apply substituteCard_in_bounds.
Qed.

(** C9, at the sample card: one field in the note against two declared,
    then two against two. *)
Lemma C9_field_index_bounds_witness :
  (exists i, substituteCard (Sample.tables Sample.frontside_model [Sample.note 100 10 "Q"])
               [("Back", 1); ("Front", 0)] (Sample.card 100 1 0)
             = Panic (PanicIndex i 1))
  /\ (exists fmt, substituteCard
                    (Sample.tables Sample.frontside_model
                       [Sample.note 100 10 ("Q" +:+ Sample.us +:+ "A")])
                    [("Back", 1); ("Front", 0)] (Sample.card 100 1 0)
                  = Ok fmt).
Proof.
  split.
  - apply (C9_field_index_bounds
             (Sample.tables Sample.frontside_model [Sample.note 100 10 "Q"])
             (Sample.card 100 1 0) [("Back", 1); ("Front", 0)]).
    + unfold range_of. vm_compute. apply perm_swap.
    + vm_compute. reflexivity.
  - apply (C9_field_index_bounds
             (Sample.tables Sample.frontside_model
                [Sample.note 100 10 ("Q" +:+ Sample.us +:+ "A")])
             (Sample.card 100 1 0) [("Back", 1); ("Front", 0)]).
    + unfold range_of. vm_compute. apply perm_swap.
    + vm_compute. reflexivity.
Defined.

(* ===================================================================== *)
(** * Properties: the loop over the cards *)
(* ===================================================================== *)

Lemma Replace_empty (old new : string) : strings.Replace "" old new = "".
Proof. destruct old; reflexivity. Qed.

Lemma replaceFields_empty (order : list (string * Z)) (fields : list string) :
  forallb (in_boundsb fields) order = true ->
  replaceFields order fields ("", "") = Ok ("", "").
Proof.
  induction order as [| [n i] order IH]; simpl; intros Hb; [reflexivity |].
  apply andb_prop in Hb as [Hh Ht].
  unfold replaceField, index_string. unfold in_boundsb in Hh. simpl in Hh. rewrite Hh.
  cbn [bind fst snd]. rewrite !Replace_empty. now apply IH.
Qed.

Lemma last_did_cons (c : Card.t) (rest : list Card.t) (d : Z) :
  last_did (c :: rest) d = last_did rest (Card.Did c).
Proof.
  unfold last_did. destruct rest as [| c' rest]; [reflexivity |].
  rewrite last_cons_cons.
  destruct (last (c' :: rest)) eqn:E; [reflexivity |].
  apply last_None in E. discriminate.
Qed.

Section Loop.

Variable T : Tables.
Variable orders : nat -> gmap string Z -> list (string * Z).
Hypothesis orders_ok : forall i m, range_of m (orders i m).


(** The only error value the loop returns is the one of the deck check. *)
Lemma resolveCards_Err (cs : list Card.t) :
  forall i deckId data e,
    fst (resolveCards T orders i cs deckId data) = Err e -> e = ErrMultipleDecks.
Proof using Type.
  induction cs as [| c cs IH]; intros i deckId data e; simpl; [discriminate |].
  destruct (substituteCard T (orders i (card_replacements T c)) c) as [fmt | e' | p] eqn:Hs.
  - destruct (ambiguous deckId c data); simpl; [congruence | apply IH].
  - exfalso. unfold substituteCard in Hs. now apply replaceFields_not_Err in Hs.
  - simpl. discriminate.
Qed.

(** When the loop ends well, [deckId] is the deck id of the last card. *)
Lemma resolveCards_Ok (cs : list Card.t) :
  forall i deckId data d data',
    resolveCards T orders i cs deckId data = (Ok d, data') ->
    d = last_did cs deckId /\ dTitle data' = dTitle data.
Proof using Type.
  induction cs as [| c cs IH]; intros i deckId data d data'; simpl.
  - intros [= <- <-]. split; reflexivity.
  - destruct (substituteCard T (orders i (card_replacements T c)) c) as [fmt | e' | p];
      try discriminate.
    destruct (ambiguous deckId c data); [discriminate |].
    intros H. apply IH in H as [-> ->]. split; [| reflexivity].
    now rewrite last_did_cons.
Qed.



End Loop.

(** C7 (the claim as stated fails). The card refers to the note 7, which
    is not among the notes: the lookup misses, and [makeQueries] still
    ends well, with a rendered card of three empty texts. *)
Lemma C7_counterexample :
  let ns := [Sample.note 100 10 ("Q" +:+ Sample.us +:+ "A")] in
  let T := Sample.tables Sample.frontside_model ns in
  let c := Sample.card 7 1 0 in
  nid2mid T !! Card.Nid c = None
  /\ makeQueries (Sample.decoder Sample.frontside_model) (Sample.db [c] ns)
       Sample.forward Sample.data0 Sample.conf0
     = (Ok tt, mkDBData "Default" "x.apkg" "2026/10/31" "" [("", "", "")]).
Proof. split; vm_compute; reflexivity. Qed.

(** C7 (amended). No lookup of the loop has a check: a miss yields the
    zero value of the map's element type. A card whose note is missing
    gets the model id 0 and the single empty field; a card whose model, or
    whose template ordinal within the model, is missing gets the pair of
    empty formats, and is then rendered (when its declared ordinals are
    indices of its field list and the deck check passes) as a card with
    an empty front and an empty back, after which the loop goes on. The
    loop returns no error value but the one of the deck check. *)
Theorem C7_lookup_miss_is_zero_value (T : Tables) (c : Card.t) :
  (nid2mid T !! Card.Nid c = None -> card_mid T c = 0)
  /\ (nid2flds T !! Card.Nid c = None -> card_fields T c = [EmptyString])
  /\ (templates T !! card_mid T c = None -> card_fmt T c = (EmptyString, EmptyString))
  /\ (forall tm, templates T !! card_mid T c = Some tm -> tm !! Card.Ord c = None ->
        card_fmt T c = (EmptyString, EmptyString))
  /\ (forall orders i rest deckId data,
        (forall j m, range_of m (orders j m)) ->
        card_fmt T c = (EmptyString, EmptyString) ->
        card_in_boundsb T c = true ->
        ambiguous deckId c data = false ->
        resolveCards T orders i (c :: rest) deckId data
        = resolveCards T orders (S i) rest (Card.Did c)
            (append_Card data
               (default EmptyString (css T !! card_mid T c), EmptyString, EmptyString)))
  /\ (forall orders i cs deckId data e,
        fst (resolveCards T orders i cs deckId data) = Err e -> e = ErrMultipleDecks).
Proof.
  repeat split.
  - unfold card_mid. now intros ->.
  - unfold card_fields. now intros ->.
  - unfold card_fmt. now intros ->.
  - unfold card_fmt. intros tm Ht Ho. rewrite Ht. simpl. now rewrite Ho.
  - intros orders i rest deckId data Ho Hf Hb Ha.
    simpl. unfold substituteCard. rewrite Hf.
    rewrite replaceFields_empty.
    + rewrite Ha. reflexivity.
    + rewrite (forallb_Permutation _ _ _ (Ho i _)). exact Hb.
  - intros orders i cs deckId data e. apply resolveCards_Err.
Qed.

(** C7, at the sample tables: a card of the missing note 7, and a card
    of the missing template ordinal 5. *)
Lemma C7_lookup_miss_is_zero_value_witness :
  let ns := [Sample.note 100 10 ("Q" +:+ Sample.us +:+ "A")] in
  let T := Sample.tables Sample.frontside_model ns in
  card_mid T (Sample.card 7 1 0) = 0
  /\ card_fields T (Sample.card 7 1 0) = [EmptyString]
  /\ card_fmt T (Sample.card 7 1 0) = (EmptyString, EmptyString)
  /\ card_fmt T (Sample.card 100 1 5) = (EmptyString, EmptyString)
  /\ resolveCards T (fun _ => map_to_list) 0 [Sample.card 100 1 5] (-1) Sample.data0
     = (Ok 1, append_Card Sample.data0 (".card{}", EmptyString, EmptyString))
  /\ ErrMultipleDecks = ErrMultipleDecks.
Proof.
  intros ns T.
  destruct (C7_lookup_miss_is_zero_value T (Sample.card 7 1 0)) as (H1 & H2 & H3 & _ & _ & _).
  destruct (C7_lookup_miss_is_zero_value T (Sample.card 100 1 5)) as (_ & _ & _ & H4 & H5 & H6).
  split; [apply H1; vm_compute; reflexivity |].
  split; [apply H2; vm_compute; reflexivity |].
  split; [apply H3; vm_compute; reflexivity |].
  split.
  { apply (H4 (<[0 := ("{{Front}}", "{{FrontSide}}<hr>{{Back}}")]> ∅));
      vm_compute; reflexivity. }
  split.
  { rewrite (H5 (fun _ => map_to_list) 0%nat [] (-1) Sample.data0).
    - vm_compute. reflexivity.
    - intros j m. unfold range_of. reflexivity.
    - vm_compute. reflexivity.
    - vm_compute. reflexivity.
    - vm_compute. reflexivity. }
  apply (H6 (fun _ => map_to_list) 0%nat
           [Sample.card 100 1 0; Sample.card 100 2 0] (-1) Sample.data0).
  vm_compute. reflexivity.
Defined.

(* ===================================================================== *)
(** * Properties: makeQueries *)
(* ===================================================================== *)


(** [strconv.Atoi] at the ends of its range, and on what is no number:
    digits beyond [uint64] give the error of the range even when a byte
    that is no digit follows them. *)
Example Atoi_edges :
  strconv.Atoi "-9223372036854775808" = Ok min_int64
  /\ strconv.Atoi "+9223372036854775807" = Ok max_int64
  /\ strconv.Atoi "9223372036854775808" = Err (ErrRange "9223372036854775808")
  /\ strconv.Atoi "9999999999999999999x" = Err (ErrSyntax "9999999999999999999x")
  /\ strconv.Atoi "99999999999999999999x" = Err (ErrRange "99999999999999999999x")
  /\ strconv.Atoi "" = Err (ErrSyntax "")
  /\ strconv.Atoi "-" = Err (ErrSyntax "-")
  /\ strconv.Atoi "1_0" = Err (ErrSyntax "1_0").
Proof. repeat split; vm_compute; reflexivity. Qed.

Lemma Atoi_Err (s : string) (e : goerror) : strconv.Atoi s = Err e -> atoi_error e.
Proof.
  unfold strconv.Atoi. intros H.
  repeat match type of H with
         | context [if ?x then _ else _] => destruct x
         | context [match ?x with _ => _ end] => destruct x
         end; inversion H; exact I.
Qed.

Lemma build_decksInfo_Err (order : list (string * gmap string json)) :
  forall acc e, build_decksInfo order acc = Err e -> atoi_error e.
Proof.
  induction order as [| [k m] order IH]; intros acc e; simpl; [discriminate |].
  destruct (strconv.Atoi k) eqn:Ha; simpl;
    [| intros [= <-]; now apply Atoi_Err in Ha | discriminate].
  destruct (m !! "name") as [[] |]; simpl; try discriminate. apply IH.
Qed.

Lemma build_css_Err (order : list (string * gmap string json)) :
  forall acc e, build_css order acc = Err e -> atoi_error e.
Proof.
  induction order as [| [k m] order IH]; intros acc e; simpl; [discriminate |].
  destruct (strconv.Atoi k) eqn:Ha; simpl;
    [| intros [= <-]; now apply Atoi_Err in Ha | discriminate].
  destruct (m !! "css") as [[] |]; simpl; try discriminate. apply IH.
Qed.

Lemma build_fields_not_Err (flds : list json) :
  forall acc e, build_fields flds acc <> Err e.
Proof.
  induction flds as [| f flds IH]; intros acc e; simpl; [discriminate |].
  destruct f as [| | | | | m]; simpl; try discriminate.
  destruct (m !! "ord") as [[] |]; simpl; try discriminate.
  destruct (m !! "name") as [[] |]; simpl; try discriminate. apply IH.
Qed.

Lemma build_tmpls_not_Err (tmpls : list json) :
  forall acc e, build_tmpls tmpls acc <> Err e.
Proof.
  induction tmpls as [| t tmpls IH]; intros acc e; simpl; [discriminate |].
  destruct t as [| | | | | m]; simpl; try discriminate.
  destruct (m !! "qfmt") as [[] |]; simpl; try discriminate.
  destruct (m !! "afmt") as [[] |]; simpl; try discriminate.
  destruct (m !! "ord") as [[] |]; simpl; try discriminate. apply IH.
Qed.

Lemma build_fieldReplacements_Err (order : list (string * gmap string json)) :
  forall acc e, build_fieldReplacements order acc = Err e -> atoi_error e.
Proof.
  induction order as [| [k m] order IH]; intros acc e; simpl; [discriminate |].
  destruct (strconv.Atoi k) as [mid | e' | p] eqn:Ha; simpl;
    [| intros [= <-]; now apply Atoi_Err in Ha | discriminate].
  destruct (m !! "flds") as [[] |]; simpl; try discriminate.
  destruct (build_fields l (default ∅ (acc !! mid))) eqn:Hf; simpl;
    [apply IH | now apply build_fields_not_Err in Hf | discriminate].
Qed.

Lemma build_templates_Err (order : list (string * gmap string json)) :
  forall acc e, build_templates order acc = Err e -> atoi_error e.
Proof.
  induction order as [| [k m] order IH]; intros acc e; simpl; [discriminate |].
  destruct (strconv.Atoi k) as [mid | e' | p] eqn:Ha; simpl;
    [| intros [= <-]; now apply Atoi_Err in Ha | discriminate].
  destruct (m !! "tmpls") as [[] |]; simpl; try discriminate.
  destruct (build_tmpls l (default ∅ (acc !! mid))) eqn:Hf; simpl;
    [apply IH | now apply build_tmpls_not_Err in Hf | discriminate].
Qed.

(** The only error values of the table building are those of
    [strconv.Atoi]. *)
Lemma build_tables_Err (sched : Schedule) (models decks : gmap string (gmap string json))
  (ns : list Note.t) (e : goerror) :
  build_tables sched models decks ns = Err e -> atoi_error e.
Proof.
  unfold build_tables.
  destruct (build_decksInfo _ _) eqn:H1; simpl;
    [| intros [= <-]; now apply build_decksInfo_Err in H1 | discriminate].
  destruct (build_css _ _) eqn:H2; simpl;
    [| intros [= <-]; now apply build_css_Err in H2 | discriminate].
  destruct (build_fieldReplacements _ _) eqn:H3; simpl;
    [| intros [= <-]; now apply build_fieldReplacements_Err in H3 | discriminate].
  destruct (build_templates _ _) eqn:H4; simpl;
    [discriminate | intros [= <-]; now apply build_templates_Err in H4 | discriminate].
Qed.

Section MakeQueries.

Variable Unmarshal : string -> option (gmap string (gmap string json)).

(** The error values of [makeQueries], and when the two of the row checks
    are returned. *)
Lemma makeQueries_Err (db : Database) (sched : Schedule) (data : DBData)
  (conf : Configuration) (e : goerror) :
  fst (makeQueries Unmarshal db sched data conf) = Err e ->
  (e = ErrCollections (length (cols db)) /\ length (cols db) <> 1%nat)
  \/ (e = ErrNoCards /\ cards db = [])
  \/ e = ErrJSON \/ atoi_error e \/ e = ErrMultipleDecks.
Proof.
  unfold makeQueries.
  destruct (cols db) as [| col [| col' cs]]; cbn [fst].
  - intros [= <-]. left. split; [reflexivity | discriminate].
  - destruct (cards db) as [| c cs] eqn:Hc; cbn [fst].
    { intros [= <-]. right. left. split; reflexivity. }
    destruct (Unmarshal (Collection.Models col)) as [models |]; cbn [fst];
      [| intros [= <-]; tauto].
    destruct (Unmarshal (Collection.Decks col)) as [decks |]; cbn [fst];
      [| intros [= <-]; tauto].
    destruct (build_tables sched models decks (notes db)) as [T | e' | p] eqn:Hb; cbn [fst];
      [| intros [= <-]; apply build_tables_Err in Hb; tauto | discriminate].
    destruct (resolveCards T (fields_order sched) 0 (c :: cs) (-1) (apply_conf conf data))
      as [[d | e' | p] data'] eqn:Hr; cbn [fst]; try discriminate.
    intros He'. assert (e' = e) by congruence. subst e'. clear He'.
    pose proof (resolveCards_Err T (fields_order sched) (c :: cs) 0%nat (-1)
                  (apply_conf conf data) e) as He.
    rewrite Hr in He. specialize (He eq_refl). tauto.
  - intros [= <-]. left. split; [reflexivity | discriminate].
Qed.

(** When [makeQueries] ends well, the title it leaves is the name of the
    deck of the last card, whatever [conf] holds. *)
Lemma makeQueries_Ok_title (db : Database) (sched : Schedule) (data data' : DBData)
  (conf : Configuration) :
  makeQueries Unmarshal db sched data conf = (Ok tt, data') ->
  exists col models decks T,
    cols db = [col]
    /\ Unmarshal (Collection.Models col) = Some models
    /\ Unmarshal (Collection.Decks col) = Some decks
    /\ build_tables sched models decks (notes db) = Ok T
    /\ dTitle data' = default EmptyString (decksInfo T !! last_did (cards db) (-1)).
Proof.
  unfold makeQueries.
  destruct (cols db) as [| col [| col' cs]]; try discriminate.
  destruct (cards db) as [| c cs] eqn:Hc; try discriminate.
  destruct (Unmarshal (Collection.Models col)) as [models |] eqn:Hm; try discriminate.
  destruct (Unmarshal (Collection.Decks col)) as [decks |] eqn:Hd; try discriminate.
  destruct (build_tables sched models decks (notes db)) as [T | e' | p] eqn:Hb;
    try discriminate.
  destruct (resolveCards T (fields_order sched) 0 (c :: cs) (-1) (apply_conf conf data))
    as [[d | e' | p] data1] eqn:Hr; try discriminate.
  intros [= <-]. apply resolveCards_Ok in Hr as [-> _].
  exists col, models, decks, T. repeat split; assumption.
Qed.

End MakeQueries.

(** C4 (the code at the failing input). The program is run with the title
    [Mine] ([conf.Title]) on a package with one card of the deck Default:
    [makeQueries] copies the title into [data] before the loop and
    overwrites it after the loop; the title it leaves is [Default], the
    same as without a title on the command line. *)
Theorem C4_title_override_overwritten :
  let ns := [Sample.note 100 10 ("Q" +:+ Sample.us +:+ "A")] in
  let db := Sample.db [Sample.card 100 1 0] ns in
  let dec := Sample.decoder Sample.frontside_model in
  Title Sample.conf_titled = "Mine"
  /\ makeQueries dec db Sample.forward Sample.data0 Sample.conf_titled
     = (Ok tt, mkDBData "Default" "x.apkg" "2026/10/31" "" [(".card{}", "Q", "Q<hr>A")])
  /\ makeQueries dec db Sample.forward Sample.data0 Sample.conf0
     = (Ok tt, mkDBData "Default" "x.apkg" "2026/10/31" "" [(".card{}", "Q", "Q<hr>A")]).
Proof. repeat split; vm_compute; reflexivity. Qed.




(** The check of the collection rows comes before the one of the card
    rows: with neither a collection row nor a card row the error is the one
    of the collections. *)
Example row_checks_order :
  let db := mkDatabase [] [] [] in
  cards db = []
  /\ makeQueries (Sample.decoder Sample.frontside_model) db
       Sample.forward Sample.data0 Sample.conf0
     = (Err (ErrCollections 0), Sample.data0)
  /\ fst (makeQueries (Sample.decoder Sample.frontside_model) db
            Sample.forward Sample.data0 Sample.conf0) <> Err ErrNoCards.
Proof. repeat split; simpl; discriminate. Qed.

(** C6. Loading fails with the error of the collections ("expected
    exactly one collection", with the number found) whenever the number of
    collection rows is not one, and with the error of no cards whenever
    there are no card rows (in a database with its one collection row):
    in both cases before any output is produced, [data] being left as it
    was (no title set, no card appended). With one collection row and at
    least one card row neither of the two errors is raised. *)
Theorem C6_row_checks (Unmarshal : string -> option (gmap string (gmap string json)))
  (db : Database) (sched : Schedule) (data : DBData) (conf : Configuration) :
  (length (cols db) <> 1%nat ->
   makeQueries Unmarshal db sched data conf
   = (Err (ErrCollections (length (cols db))), data))
  /\ (length (cols db) = 1%nat -> cards db = [] ->
      makeQueries Unmarshal db sched data conf = (Err ErrNoCards, data))
  /\ (length (cols db) = 1%nat -> cards db <> [] ->
      fst (makeQueries Unmarshal db sched data conf) <> Err ErrNoCards
      /\ forall n, fst (makeQueries Unmarshal db sched data conf) <> Err (ErrCollections n)).
Proof.
  split; [| split].
  - unfold makeQueries. destruct (cols db) as [| col [| col' cs]]; simpl; intros H;
      [reflexivity | lia | reflexivity].
  - unfold makeQueries. destruct (cols db) as [| col [| col' cs]]; simpl; intros H Hc;
      try discriminate. now rewrite Hc.
  - intros Hl Hc. split; [| intros n]; intros He;
      apply makeQueries_Err in He
        as [[_ Hn] | [[_ Hn] | [He | [He | He]]]];
      try contradiction; try discriminate.
Qed.

(** C6, at no collection row, at no card row, and at one of each. *)
Lemma C6_row_checks_witness :
  let dec := Sample.decoder Sample.frontside_model in
  let ns := [Sample.note 100 10 ("Q" +:+ Sample.us +:+ "A")] in
  makeQueries dec (mkDatabase [] ns [Sample.card 100 1 0])
    Sample.forward Sample.data0 Sample.conf_titled
  = (Err (ErrCollections 0), Sample.data0)
  /\ makeQueries dec (Sample.db [] ns) Sample.forward Sample.data0 Sample.conf_titled
     = (Err ErrNoCards, Sample.data0)
  /\ fst (makeQueries dec (Sample.db [Sample.card 100 1 0] ns)
            Sample.forward Sample.data0 Sample.conf_titled) <> Err ErrNoCards.
Proof.
  intros dec ns. split; [| split].
  - apply (C6_row_checks dec (mkDatabase [] ns [Sample.card 100 1 0])
             Sample.forward Sample.data0 Sample.conf_titled).
    simpl. lia.
  - apply (C6_row_checks dec (Sample.db [] ns) Sample.forward Sample.data0 Sample.conf_titled);
      reflexivity.
  - apply (C6_row_checks dec (Sample.db [Sample.card 100 1 0] ns)
             Sample.forward Sample.data0 Sample.conf_titled);
      [reflexivity | simpl; discriminate].
Defined.

(* ===================================================================== *)
(** * Further properties: the timestamp codecs *)
(* ===================================================================== *)

Lemma wrap64_in_int64 (z : Z) : in_int64 (wrap64 z).
Proof.
  unfold in_int64, min_int64, max_int64, wrap64.
  pose proof (Z.mod_pos_bound (z + 2 ^ 63) (2 ^ 64)). lia.
Qed.

(** X1. Second resolution: for every [int64] [t], [SecondsTime.Scan] of
    the stored integer followed by [SecondsTime.Value] yields [t] again;
    the addition of [unixToInternal] may wrap around and is undone. *)
Theorem SecondsTime_roundtrip_int64 (t : Z) :
  in_int64 t -> SecondsTime_roundtrip t = Ok (VInt64 t).
Proof.
  intros Ht. unfold SecondsTime_roundtrip, SecondsTime_Scan, SecondsTime_Value.
  cbn [bind]. unfold time.Unix, time.UTC. cbn [Z.ltb Z.leb Z.compare orb time.ext time.nsec].
  rewrite Time_Unix_of_seconds, wrap64_id by assumption. reflexivity.
Qed.

Lemma SecondsTime_roundtrip_int64_witness :
  SecondsTime_roundtrip max_int64 = Ok (VInt64 max_int64).
Proof.
  apply (SecondsTime_roundtrip_int64 max_int64).
  unfold in_int64, min_int64, max_int64. lia.
Defined.

(** X2. Millisecond resolution: for every [int64] [t],
    [MilliSecondsTime.Scan] followed by [MilliSecondsTime.Value] yields
    the quotient of [t] by 1000 times 10^9 plus the remainder (the
    division truncating towards zero, the sum wrapped to 64 bits): the
    thousands are scaled by a million, the rest is kept. *)
Theorem MilliSecondsTime_roundtrip_int64 (t : Z) :
  in_int64 t ->
  MilliSecondsTime_roundtrip t
  = Ok (VInt64 (wrap64 (Z.quot t 1000 * 1000000000 + Z.rem t 1000))).
Proof. apply MilliSecondsTime_roundtrip_value. Qed.

Lemma MilliSecondsTime_roundtrip_int64_witness :
  MilliSecondsTime_roundtrip (-1500)
  = Ok (VInt64 (wrap64 (Z.quot (-1500) 1000 * 1000000000 + Z.rem (-1500) 1000))).
Proof.
  apply (MilliSecondsTime_roundtrip_int64 (-1500)).
  unfold in_int64, min_int64, max_int64. lia.
Defined.

(** X3. Whatever value is scanned, a time either [Scan] decodes is in
    UTC, its seconds fit an [int64] and its nanoseconds lie in
    [0, 999999999]; a [SecondsTime] has no nanoseconds at all. *)
Theorem Scan_time_well_formed (val : value) (t : time.Time) :
  (SecondsTime_Scan val = Ok t ->
   time.loc t = time.UTCLoc /\ in_int64 (time.ext t) /\ time.nsec t = 0)
  /\ (MilliSecondsTime_Scan val = Ok t ->
      time.loc t = time.UTCLoc /\ in_int64 (time.ext t)
      /\ 0 <= time.nsec t < 1000000000).
Proof.
  split.
  - unfold SecondsTime_Scan.
    destruct (match val with VInt64 i => _ | _ => _ end) as [secs | e | p];
      cbn [bind]; try discriminate.
    intros [= <-]. unfold time.Unix, time.UTC.
    cbn [Z.ltb Z.leb Z.compare orb time.ext time.nsec time.loc].
    split; [reflexivity |]. split; [apply wrap64_in_int64 | reflexivity].
  - unfold MilliSecondsTime_Scan.
    destruct (match val with VInt64 i => _ | _ => _ end) as [msecs | e | p];
      cbn [bind]; try discriminate.
    intros [= <-]. unfold time.Unix, time.UTC.
    assert (Hr : -1000 < Z.rem msecs 1000 < 1000).
    { pose proof (Z.rem_bound_abs msecs 1000). lia. }
    set (r := Z.rem msecs 1000) in *.
    destruct (Z.ltb_spec r 0) as [Hneg | Hpos]; cbn [orb].
    + assert (Hn : Z.quot r 1000000000 = 0) by (apply Z.quot_small_iff; lia).
      rewrite Hn. cbn [Z.mul]. replace (wrap64 0) with 0 by reflexivity.
      rewrite Z.sub_0_r.
      rewrite (wrap64_id r) by (unfold in_int64, min_int64, max_int64; lia).
      destruct (Z.ltb_spec r 0); [| lia].
      cbn [time.ext time.nsec time.loc].
      rewrite (wrap64_id (r + 1000000000)) by (unfold in_int64, min_int64, max_int64; lia).
      split; [reflexivity |]. split; [apply wrap64_in_int64 | lia].
    + destruct (Z.leb_spec 1000000000 r) as [Hbig | Hsmall]; [lia |].
      cbn [time.ext time.nsec time.loc].
      split; [reflexivity |]. split; [apply wrap64_in_int64 | lia].
Qed.

Lemma Scan_time_well_formed_witness :
  (time.loc (time.UTC (time.Unix 7 0)) = time.UTCLoc
   /\ in_int64 (time.ext (time.UTC (time.Unix 7 0)))
   /\ time.nsec (time.UTC (time.Unix 7 0)) = 0)
  /\ (time.loc (time.UTC (time.Unix (-1) (-500))) = time.UTCLoc
      /\ in_int64 (time.ext (time.UTC (time.Unix (-1) (-500))))
      /\ 0 <= time.nsec (time.UTC (time.Unix (-1) (-500))) < 1000000000).
Proof.
  split.
  - apply (Scan_time_well_formed (VString "7") (time.UTC (time.Unix 7 0))).
    vm_compute. reflexivity.
  - apply (Scan_time_well_formed (VInt64 (-1500)) (time.UTC (time.Unix (-1) (-500)))).
    vm_compute. reflexivity.
Defined.

(** X4. Neither [Scan] panics. It returns the conversion error exactly
    for the dynamic types it does not list (here a boolean or a byte
    slice); a string fails only with the error of [strconv.Atoi]; an
    integer, a float, a time and nil always decode. *)
Theorem Scan_errors (val : value) :
  (forall p, SecondsTime_Scan val <> Panic p /\ MilliSecondsTime_Scan val <> Panic p)
  /\ (forall e, SecondsTime_Scan val = Err e \/ MilliSecondsTime_Scan val = Err e ->
        match val with
        | VBool _ | VBytes _ => e = ErrScan
        | VString s => strconv.Atoi s = Err e /\ atoi_error e
        | _ => False
        end)
  /\ (match val with
      | VBool _ | VBytes _ =>
          SecondsTime_Scan val = Err ErrScan /\ MilliSecondsTime_Scan val = Err ErrScan
      | VString _ => True
      | _ => exists s m, SecondsTime_Scan val = Ok s /\ MilliSecondsTime_Scan val = Ok m
      end).
Proof.
  split; [| split].
  - intros p. unfold SecondsTime_Scan, MilliSecondsTime_Scan.
    destruct val as [i | f | s | t | | b | b]; cbn [bind]; try (split; discriminate).
    assert (Hp : strconv.Atoi s <> Panic p).
    { unfold strconv.Atoi.
      repeat match goal with
             | |- context [if ?x then _ else _] => destruct x
             | |- context [match ?x with _ => _ end] => destruct x
             end; discriminate. }
    destruct (strconv.Atoi s); cbn [bind]; split; congruence.
  - intros e. unfold SecondsTime_Scan, MilliSecondsTime_Scan.
    destruct val as [i | f | s | t | | b | b]; cbn [bind];
      try (intros [H | H]; discriminate); try (intros [H | H]; congruence).
    destruct (strconv.Atoi s) as [n | e' | p] eqn:Ha; cbn [bind];
      intros [H | H]; try discriminate;
      assert (e' = e) by congruence; subst e'; (split; [reflexivity | now apply Atoi_Err in Ha]).
  - destruct val as [i | f | s | t | | b | b]; cbn; eauto.
Qed.

Lemma Scan_errors_witness :
  strconv.Atoi "12x" = Err (ErrSyntax "12x") /\ atoi_error (ErrSyntax "12x").
Proof.
  destruct (Scan_errors (VString "12x")) as (_ & H & _).
  apply (H (ErrSyntax "12x")). left. vm_compute. reflexivity.
Defined.

(* ===================================================================== *)
(** * Further properties: extraction *)
(* ===================================================================== *)

Section ExtractProperties.

Variable OpenFile_ok : string -> bool.
Variables metaDest mediaDest : string.

Lemma writes_app (a b : list fsop) : writes (a ++ b) = writes a ++ writes b.
Proof. unfold writes. apply flat_map_app. Qed.

Lemma extractAndWriteFile_path (f : zipFile) (tr : list fsop) :
  extractAndWriteFile OpenFile_ok metaDest mediaDest f tr
  = match OpenErr f with
    | Some e => (Some e, tr)
    | None =>
        if IsDir f then (None, tr ++ [MkdirAll (filepath.Join [metaDest; Name f])])
        else
          let path := entry_path metaDest mediaDest f in
          if OpenFile_ok path
          then (CopyErr f, (tr ++ [MkdirAll (filepath.Dir path)]) ++ [WriteFile path (Content f)])
          else (Some (ErrOS path), tr ++ [MkdirAll (filepath.Dir path)])
    end.
Proof. reflexivity. Qed.

(** X5. When the loop of [extractArchive] ends without an error, the files
    it has written are exactly the file entries of the archive, in the
    order of the archive, each with its content and at the path joined
    from its name and its destination (the meta directory for the two
    names [media] and [collection.anki2], the media directory for all
    others); directory entries write no file. *)
Theorem extractFiles_success_writes (files : list zipFile) :
  forall tr,
    fst (extractFiles OpenFile_ok metaDest mediaDest files tr) = None ->
    writes (snd (extractFiles OpenFile_ok metaDest mediaDest files tr))
    = writes tr
      ++ map (fun f => (entry_path metaDest mediaDest f, Content f))
           (List.filter (fun f => negb (IsDir f)) files).
Proof.
  induction files as [| f files IH]; intros tr; cbn -[filepath.Join filepath.Dir entry_path extractAndWriteFile].
  - intros _. now rewrite app_nil_r.
  - rewrite extractAndWriteFile_path.
    destruct (OpenErr f) as [e |]; [discriminate |].
    destruct (IsDir f) eqn:Hd.
    + intros H. cbn [negb].
      rewrite (IH _ H), writes_app. cbn -[filepath.Join filepath.Dir entry_path extractAndWriteFile]. now rewrite app_nil_r.
    + cbv zeta.
      destruct (OpenFile_ok (entry_path metaDest mediaDest f)); [| discriminate].
      destruct (CopyErr f) as [e |]; [discriminate |].
      intros H. cbn [negb].
      rewrite (IH _ H), !writes_app. cbn -[filepath.Join filepath.Dir entry_path extractAndWriteFile]. now rewrite <- !app_assoc.
Qed.

(** X6. The error the loop of [extractArchive] returns is the error of
    opening or of copying one of the entries, or the error of the
    operating system that refused to create the file of an entry at its
    computed path: the function has no error of its own. *)
Theorem extractFiles_error_source (files : list zipFile) :
  forall tr e,
    fst (extractFiles OpenFile_ok metaDest mediaDest files tr) = Some e ->
    exists f, In f files
      /\ (OpenErr f = Some e
          \/ (IsDir f = false /\ CopyErr f = Some e)
          \/ (IsDir f = false
              /\ OpenFile_ok (entry_path metaDest mediaDest f) = false
              /\ e = ErrOS (entry_path metaDest mediaDest f))).
Proof.
  induction files as [| f files IH]; intros tr e; cbn -[filepath.Join filepath.Dir entry_path extractAndWriteFile]; [discriminate |].
  rewrite extractAndWriteFile_path.
  destruct (OpenErr f) as [e' |] eqn:Ho.
  { cbn -[filepath.Join filepath.Dir entry_path extractAndWriteFile]. intros [= <-]. exists f. split; [now left | now left]. }
  destruct (IsDir f) eqn:Hd.
  { intros H. destruct (IH _ _ H) as (g & Hg & Hc). exists g. split; [now right | exact Hc]. }
  cbv zeta.
  destruct (OpenFile_ok (entry_path metaDest mediaDest f)) eqn:Hok.
  - destruct (CopyErr f) as [e' |] eqn:Hc.
    + cbn -[filepath.Join filepath.Dir entry_path extractAndWriteFile]. intros [= <-]. exists f. split; [now left |]. right. left. now split.
    + intros H. destruct (IH _ _ H) as (g & Hg & Hg'). exists g. split; [now right | exact Hg'].
  - cbn -[filepath.Join filepath.Dir entry_path extractAndWriteFile]. intros [= <-]. exists f. split; [now left |]. right. right. now repeat split.
Qed.

(** X7. The loop of [extractArchive] stops at the first entry that fails:
    the entries before it have been extracted, the effects of the failing
    entry itself are the last of the trace, no later entry is touched, and
    nothing that was written is taken back. *)
Theorem extractFiles_stops_at_first_error (pre post : list zipFile) (f : zipFile) :
  forall tr tr1 tr2 e,
    extractFiles OpenFile_ok metaDest mediaDest pre tr = (None, tr1) ->
    extractAndWriteFile OpenFile_ok metaDest mediaDest f tr1 = (Some e, tr2) ->
    extractFiles OpenFile_ok metaDest mediaDest (pre ++ f :: post) tr = (Some e, tr2)
    /\ exists added, tr2 = tr ++ added.
Proof.
  induction pre as [| g pre IH]; intros tr tr1 tr2 e; cbn -[filepath.Join filepath.Dir entry_path extractAndWriteFile].
  - intros [= <-] Hf. rewrite Hf. split; [reflexivity |].
    rewrite extractAndWriteFile_path in Hf.
    destruct (OpenErr f); [injection Hf as _ <-; exists []; now rewrite app_nil_r |].
    destruct (IsDir f); [discriminate |]. cbv zeta in Hf.
    destruct (OpenFile_ok _); injection Hf as _ <-; rewrite <- ?app_assoc; eauto.
  - destruct (extractAndWriteFile OpenFile_ok metaDest mediaDest g tr) as [[e' |] trg] eqn:Hg;
      [discriminate |].
    intros Hpre Hf. destruct (IH _ _ _ _ Hpre Hf) as [-> [added ->]].
    split; [reflexivity |].
    rewrite extractAndWriteFile_path in Hg.
    destruct (OpenErr g); [discriminate |].
    destruct (IsDir g); [injection Hg as <-; rewrite <- app_assoc; eauto |].
    cbv zeta in Hg.
    destruct (OpenFile_ok _); [| discriminate].
    injection Hg as _ <-. rewrite <- !app_assoc. eauto.
Qed.

End ExtractProperties.

Lemma extractFiles_success_writes_witness :
  writes (snd (extractFiles (fun _ => true) "/tmp/a" "out"
                 [mkZipFile "img/" true None "" None;
                  mkZipFile "media" false None "{}" None;
                  mkZipFile "0" false None "png" None] []))
  = [("/tmp/a/media", "{}"); ("out/0", "png")].
Proof.
  apply (extractFiles_success_writes (fun _ => true) "/tmp/a" "out"
           [mkZipFile "img/" true None "" None;
            mkZipFile "media" false None "{}" None;
            mkZipFile "0" false None "png" None] []).
  vm_compute. reflexivity.
Defined.

Lemma extractFiles_error_source_witness :
  exists f, In f [mkZipFile "media" false None "{}" None;
                  mkZipFile "0" false None "p" (Some (ErrOS "0"))]
    /\ (OpenErr f = Some (ErrOS "0")
        \/ (IsDir f = false /\ CopyErr f = Some (ErrOS "0"))
        \/ (IsDir f = false
            /\ (fun _ : string => true) (entry_path "/tmp/a" "out" f) = false
            /\ ErrOS "0" = ErrOS (entry_path "/tmp/a" "out" f))).
Proof.
  apply (extractFiles_error_source (fun _ => true) "/tmp/a" "out"
           [mkZipFile "media" false None "{}" None;
            mkZipFile "0" false None "p" (Some (ErrOS "0"))] [] (ErrOS "0")).
  vm_compute. reflexivity.
Defined.

Lemma extractFiles_stops_at_first_error_witness :
  extractFiles (fun p => negb (String.eqb p "out/1")) "/tmp/a" "out"
    ([mkZipFile "0" false None "a" None]
     ++ mkZipFile "1" false None "b" None :: [mkZipFile "2" false None "c" None]) []
  = (Some (ErrOS "out/1"), [MkdirAll "out"; WriteFile "out/0" "a"; MkdirAll "out"])
  /\ exists added, [MkdirAll "out"; WriteFile "out/0" "a"; MkdirAll "out"] = [] ++ added.
Proof.
  apply (extractFiles_stops_at_first_error (fun p => negb (String.eqb p "out/1")) "/tmp/a" "out"
           [mkZipFile "0" false None "a" None] [mkZipFile "2" false None "c" None]
           (mkZipFile "1" false None "b" None) []
           [MkdirAll "out"; WriteFile "out/0" "a"]);
    vm_compute; reflexivity.
Defined.

(** X8. [extractArchive] refuses no entry for its name: when no entry
    fails to be opened or copied and the operating system creates every
    file, the whole archive is extracted, whatever the names are. *)
Theorem extractArchive_refuses_no_name (metaDest mediaDest : string) (files : list zipFile) :
  Forall (fun f => OpenErr f = None /\ CopyErr f = None) files ->
  fst (extractArchive (fun _ => true) metaDest mediaDest (inl files)) = None.
Proof. intros H. simpl. now apply extractFiles_accepts. Qed.

Lemma extractArchive_refuses_no_name_witness :
  fst (extractArchive (fun _ => true) "/tmp/a" "out"
         (inl [mkZipFile "../../../root/.profile" false None "x" None])) = None.
Proof.
  apply (extractArchive_refuses_no_name "/tmp/a" "out"
           [mkZipFile "../../../root/.profile" false None "x" None]).
  repeat constructor.
Defined.

(* ===================================================================== *)
(** * Further properties: the rename pass of readDatabase *)
(* ===================================================================== *)

Lemma renameMedia_extends (Rename_ok : string -> string -> bool) (Output : string)
  (media : list (string * string)) :
  forall tr, exists added, snd (renameMedia Rename_ok Output media tr) = tr ++ added.
Proof.
  induction media as [| [filename original] media IH]; intros tr;
    cbn -[filepath.Join maliciousPath].
  - exists []. now rewrite app_nil_r.
  - destruct (maliciousPath _); [exists []; now rewrite app_nil_r |].
    destruct (Rename_ok _ _); [| exists []; now rewrite app_nil_r].
    destruct (IH (tr ++ [Rename (filepath.Join [Output; filename])
                           (filepath.Join [Output; original])])) as [added ->].
    rewrite <- app_assoc. eauto.
Qed.

(** X9. The rename pass never renames a file to a target its check
    flags: everything it adds to the trace is a rename whose target
    neither starts with a slash nor with [../]; and when it ends without
    an error it has renamed once per entry of the manifest. *)
Theorem renameMedia_targets_checked (Rename_ok : string -> string -> bool) (Output : string)
  (media : list (string * string)) :
  forall tr,
  exists added,
    snd (renameMedia Rename_ok Output media tr) = tr ++ added
    /\ Forall (fun op => exists from to,
                   op = Rename from to /\ maliciousPath to = false) added
    /\ (fst (renameMedia Rename_ok Output media tr) = None ->
        length added = length media).
Proof.
  induction media as [| [filename original] media IH]; intros tr;
    cbn -[filepath.Join maliciousPath].
  - exists []. rewrite app_nil_r. repeat split. constructor.
  - destruct (maliciousPath (filepath.Join [Output; original])) eqn:Hm.
    { exists []. rewrite app_nil_r. cbn. repeat split; [constructor | discriminate]. }
    destruct (Rename_ok _ _).
    + destruct (IH (tr ++ [Rename (filepath.Join [Output; filename])
                             (filepath.Join [Output; original])]))
        as (added & Hs & Hf & Hl).
      exists (Rename (filepath.Join [Output; filename]) (filepath.Join [Output; original])
              :: added).
      rewrite Hs, <- app_assoc. split; [reflexivity |]. split.
      * constructor; [eauto | exact Hf].
      * intros H. cbn [length]. now rewrite (Hl H).
    + exists []. rewrite app_nil_r. cbn. repeat split; [constructor | discriminate].
Qed.

Lemma Clean_rooted (path : string) :
  String.prefix "/" path = true -> String.prefix "/" (filepath.Clean path) = true.
Proof.
  destruct path as [| c r]; [discriminate |].
  intros H. unfold filepath.Clean. rewrite H.
  destruct (String.concat "/" _); reflexivity.
Qed.

Lemma Join_absolute_malicious (Output original : string) :
  String.prefix "/" Output = true ->
  maliciousPath (filepath.Join [Output; original]) = true.
Proof.
  intros Habs. destruct Output as [| c r]; [discriminate |].
  cbn [filepath.Join].
  assert (Hp : String.prefix "/" (filepath.Clean (String.concat "/" [String c r; original])) = true).
  { apply Clean_rooted. cbn [String.concat].
    change (String c r +:+ "/" +:+ original) with (String c (r +:+ "/" +:+ original)).
    cbn [String.prefix] in *.
    destruct (Ascii.ascii_dec "/" c); [| discriminate].
    destruct (r +:+ "/" +:+ original); reflexivity. }
  unfold maliciousPath.
  destruct (filepath.Clean _) as [| a s]; [discriminate |].
  rewrite Hp. reflexivity.
Qed.

(** X10. With an absolute output directory ([conf.Output] starting with
    a slash) every target of the rename pass starts with a slash too, so
    the pass refuses the first entry of any manifest that is not empty:
    it returns the error of a malicious path and renames nothing. *)
Theorem renameMedia_absolute_output (Rename_ok : string -> string -> bool) (Output : string)
  (filename original : string) (media : list (string * string)) (tr : list fsop) :
  String.prefix "/" Output = true ->
  renameMedia Rename_ok Output ((filename, original) :: media) tr = (Some ErrMalicious, tr).
Proof.
  intros Habs. cbn -[filepath.Join maliciousPath].
  now rewrite (Join_absolute_malicious Output original Habs).
Qed.

Lemma renameMedia_absolute_output_witness :
  renameMedia (fun _ _ => true) "/home/u/out" [("0", "cat.png")] [] = (Some ErrMalicious, []).
Proof.
  apply (renameMedia_absolute_output (fun _ _ => true) "/home/u/out" "0" "cat.png" [] []).
  reflexivity.
Defined.

Lemma Split_free (sep : ascii) (s : string) :
  free_of sep s = true -> strings.Split s sep = [s].
Proof.
  induction s as [| c s IH]; simpl; [reflexivity |].
  intros H. apply andb_prop in H as [Hc Hs].
  apply negb_true_iff in Hc. rewrite Hc, (IH Hs). reflexivity.
Qed.

Lemma Split_nonempty (sep : ascii) (s : string) : strings.Split s sep <> [].
Proof.
  destruct s as [| c s]; simpl; [discriminate |].
  destruct (Ascii.eqb c sep); [discriminate |].
  destruct (strings.Split s sep); discriminate.
Qed.

Lemma Split_app_sep (sep : ascii) (a b : string) :
  strings.Split (a +:+ String sep b) sep = strings.Split a sep ++ strings.Split b sep.
Proof.
  induction a as [| c a IH].
  - change ("" +:+ String sep b) with (String sep b). simpl.
    now rewrite Ascii.eqb_refl.
  - change (String c a +:+ String sep b) with (String c (a +:+ String sep b)). simpl.
    destruct (Ascii.eqb c sep); rewrite IH; [reflexivity |].
    destruct (strings.Split a sep) eqn:E; [now apply Split_nonempty in E | reflexivity].
Qed.

Lemma prefix_slash_head (c : ascii) (s : string) :
  Ascii.eqb c "/" = false -> String.prefix "/" (String c s) = false.
Proof.
  intros H. cbn [String.prefix].
  destruct (Ascii.ascii_dec "/" c) as [<- | _]; [| reflexivity].
  now rewrite Ascii.eqb_refl in H.
Qed.

Lemma prefix_dir_free (d n : string) :
  free_of "/" n = true -> String.prefix (d +:+ "/") n = false.
Proof.
  revert n. induction d as [| c d IH]; intros n Hn;
    [change ("" +:+ "/") with "/"
    | change (String c d +:+ "/") with (String c (d +:+ "/"))].
  - destruct n as [| a n]; [reflexivity |].
    cbn [free_of] in Hn. apply andb_prop in Hn as [Ha _]. apply negb_true_iff in Ha.
    now apply prefix_slash_head.
  - destruct n as [| a n]; [reflexivity |].
    cbn [String.prefix]. destruct (Ascii.ascii_dec c a); [| reflexivity].
    apply IH. cbn [free_of] in Hn. now apply andb_prop in Hn as [_ Hn].
Qed.

Lemma free_maliciousPath (n : string) :
  free_of "/" n = true -> maliciousPath n = false.
Proof.
  intros Hn. unfold maliciousPath.
  destruct n as [| a n]; [reflexivity |].
  cbn [free_of] in Hn. apply andb_prop in Hn as [Ha Hn]. apply negb_true_iff in Ha.
  rewrite (prefix_slash_head a n Ha), andb_false_r. cbn [orb].
  destruct n as [| b [| c r]]; try reflexivity.
  cbn [free_of] in Hn.
  apply andb_prop in Hn as [_ Hn]. apply andb_prop in Hn as [Hc _].
  apply negb_true_iff in Hc.
  cbn [String.substring String.eqb]. rewrite Hc.
  destruct (Ascii.eqb a "."), (Ascii.eqb b "."); apply andb_false_r.
Qed.

(** Joining a plain directory name with [../] and a plain file name
    gives the file name alone: the target has left the directory. *)
Lemma Join_parent (d n : string) :
  plain_name d = true -> plain_name n = true -> filepath.Join [d; "../" +:+ n] = n.
Proof.
  unfold plain_name. intros Hd Hn.
  repeat (apply andb_prop in Hd as [Hd ?]). repeat (apply andb_prop in Hn as [Hn ?]).
  repeat match goal with H : negb _ = true |- _ => apply negb_true_iff in H end.
  destruct d as [| c d]; [discriminate |].
  cbn [filepath.Join String.concat].
  change (String c d +:+ "/" +:+ "../" +:+ n)
    with (String c d +:+ String "/" (".." +:+ String "/" n)).
  unfold filepath.Clean.
  change (String c d +:+ String "/" (".." +:+ String "/" n))
    with (String c (d +:+ String "/" (".." +:+ String "/" n))) at 1 2.
  cbv iota.
  assert (Hc : Ascii.eqb c "/" = false).
  { cbn [free_of] in Hd. apply andb_prop in Hd as [Hc _]. now apply negb_true_iff in Hc. }
  rewrite (prefix_slash_head c _ Hc).
  unfold filepath.slash. rewrite !Split_app_sep, (Split_free _ _ Hd), (Split_free _ _ Hn).
  change (strings.Split ".." "/") with [".."].
  cbn [app filepath.clean_elems].
  repeat match goal with H : String.eqb _ _ = false |- _ => rewrite H end.
  cbn [orb]. change (String.eqb ".." "") with false. change (String.eqb ".." ".") with false.
  change (String.eqb ".." "..") with true. cbn [orb].
  repeat match goal with H : String.eqb _ _ = false |- _ => rewrite H end.
  cbn [orb rev app String.concat].
  destruct n; [discriminate | reflexivity].
Qed.

(** X11. The check of the rename pass does not keep the targets inside
    the output directory. For a plain directory name [d] as output and a
    manifest entry whose original name is [../n], with [n] a plain file name
    other than [d], the target is [n], beside the output directory and
    not inside it; the check lets it pass and the file is renamed to
    it. *)
Theorem renameMedia_leaves_output (Rename_ok : string -> string -> bool)
  (d k n : string) (media : list (string * string)) (tr : list fsop) :
  plain_name d = true -> plain_name n = true -> n <> d ->
  Rename_ok (filepath.Join [d; k]) n = true ->
  renameMedia Rename_ok d ((k, "../" +:+ n) :: media) tr
  = renameMedia Rename_ok d media (tr ++ [Rename (filepath.Join [d; k]) n])
  /\ inside d n = false.
Proof.
  intros Hd Hn Hne Hok.
  assert (Hfree : free_of "/" n = true).
  { unfold plain_name in Hn. now repeat (apply andb_prop in Hn as [Hn ?]). }
  split.
  - cbn -[filepath.Join maliciousPath append].
    rewrite (Join_parent d n Hd Hn), (free_maliciousPath n Hfree), Hok. reflexivity.
  - unfold inside. apply String.eqb_neq in Hne. rewrite Hne.
    now rewrite (prefix_dir_free d n Hfree).
Qed.

Lemma renameMedia_leaves_output_witness :
  renameMedia (fun _ _ => true) "out" [("0", "../" +:+ "index.html")] []
  = renameMedia (fun _ _ => true) "out" [] ([] ++ [Rename (filepath.Join ["out"; "0"]) "index.html"])
  /\ inside "out" "index.html" = false.
Proof.
  apply (renameMedia_leaves_output (fun _ _ => true) "out" "0" "index.html" [] []);
    try reflexivity.
  discriminate.
Defined.

(* ===================================================================== *)
(** * Further properties: makeQueries *)
(* ===================================================================== *)

(** What the loop over the cards does to [data]: it only appends cards,
    at most one per card and exactly one per card when it ends well, each
    with the style sheet of the model of its card. *)
Lemma resolveCards_data (T : Tables) (orders : nat -> gmap string Z -> list (string * Z))
  (cs : list Card.t) :
  forall i deckId data,
  exists added,
    snd (resolveCards T orders i cs deckId data)
    = mkDBData (dTitle data) (dFilepath data) (dNow data) (dDescription data)
        (dCards data ++ added)
    /\ (length added <= length cs)%nat
    /\ (forall d, fst (resolveCards T orders i cs deckId data) = Ok d ->
          map (fun x => fst (fst x)) added
          = map (fun c => default EmptyString (css T !! card_mid T c)) cs).
Proof.
  induction cs as [| c cs IH]; intros i deckId data; cbn [resolveCards].
  - exists []. rewrite app_nil_r. destruct data. repeat split. simpl. lia.
  - destruct (substituteCard T (orders i (card_replacements T c)) c) as [fmt | e | p].
    + destruct (ambiguous deckId c data).
      * exists []. rewrite app_nil_r. destruct data. cbn. repeat split; [lia | discriminate].
      * destruct (IH (S i) (Card.Did c) (append_Card data (rendered T c fmt)))
          as (added & Hs & Hl & Hm).
        exists (rendered T c fmt :: added). rewrite Hs. cbn [append_Card dTitle dFilepath dNow
          dDescription dCards]. rewrite <- app_assoc. split; [reflexivity |].
        split; [cbn [length]; lia |].
        intros d Hd. cbn [map]. f_equal. now apply (Hm d).
    + exists []. rewrite app_nil_r. destruct data. cbn. repeat split; [lia | discriminate].
    + exists []. rewrite app_nil_r. destruct data. cbn. repeat split; [lia | discriminate].
Qed.

(** The cards a loop that ends well has appended, place by place. *)
Lemma resolveCards_rendered (T : Tables) (orders : nat -> gmap string Z -> list (string * Z))
  (cs : list Card.t) :
  forall i0 deckId data d data',
    resolveCards T orders i0 cs deckId data = (Ok d, data') ->
    exists added,
      data' = mkDBData (dTitle data) (dFilepath data) (dNow data) (dDescription data)
                (dCards data ++ added)
      /\ length added = length cs
      /\ (forall j c, nth_error cs j = Some c ->
            exists fmt,
              replaceFields (orders (i0 + j)%nat (card_replacements T c))
                (card_fields T c) (card_fmt T c) = Ok fmt
              /\ nth_error added j
                 = Some (default EmptyString (css T !! card_mid T c),
                         regexp.ReplaceAllString (fst fmt) AUDIO_ELEMENT,
                         regexp.ReplaceAllString (snd fmt) AUDIO_ELEMENT)).
Proof.
  induction cs as [| c cs IH]; intros i0 deckId data d data'; cbn [resolveCards].
  - intros [= _ <-]. exists []. rewrite app_nil_r. destruct data.
    repeat split. intros j c Hj. destruct j; discriminate.
  - destruct (substituteCard T (orders i0 (card_replacements T c)) c) as [fmt | e | p] eqn:Hs;
      try discriminate.
    destruct (ambiguous deckId c data); [discriminate |].
    intros Hr. destruct (IH _ _ _ _ _ Hr) as (added & -> & Hlen & Hnth).
    exists (rendered T c fmt :: added).
    cbn [append_Card dTitle dFilepath dNow dDescription dCards].
    rewrite <- app_assoc. split; [reflexivity |].
    split; [cbn [length]; now rewrite Hlen |].
    intros [| j] c0 Hj; cbn [nth_error] in *.
    + injection Hj as <-. exists fmt. rewrite Nat.add_0_r. split; [exact Hs | reflexivity].
    + destruct (Hnth j c0 Hj) as (fmt0 & Hf0 & Hn0).
      exists fmt0. split; [| exact Hn0].
      now replace (i0 + S j)%nat with (S i0 + j)%nat by lia.
Qed.

Section MakeQueriesProperties.

Variable Unmarshal : string -> option (gmap string (gmap string json)).

(** The cards, the file path and the date of [data] across [makeQueries]. *)
Lemma makeQueries_data (db : Database) (sched : Schedule) (data : DBData)
  (conf : Configuration) :
  let data' := snd (makeQueries Unmarshal db sched data conf) in
  dFilepath data' = dFilepath data
  /\ dNow data' = dNow data
  /\ (dDescription data' = dDescription data
      \/ (Description conf <> "" /\ dDescription data' = Description conf))
  /\ exists added, dCards data' = dCards data ++ added
                   /\ (length added <= length (cards db))%nat.
Proof.
  assert (Hnil : exists added : list (string * string * string),
             dCards data = dCards data ++ added /\ (length added <= length (cards db))%nat).
  { exists []. rewrite app_nil_r. split; [reflexivity | cbn; lia]. }
  assert (Hconf : dFilepath (apply_conf conf data) = dFilepath data
                  /\ dNow (apply_conf conf data) = dNow data
                  /\ (dDescription (apply_conf conf data) = dDescription data
                      \/ (Description conf <> ""
                          /\ dDescription (apply_conf conf data) = Description conf))
                  /\ dCards (apply_conf conf data) = dCards data).
  { unfold apply_conf.
    destruct (String.eqb (Title conf) ""); destruct (String.eqb_spec (Description conf) "");
      cbn; auto 6. }
  destruct Hconf as (Hf & Hn & Hd & Hc).
  assert (Hconf' : exists added : list (string * string * string),
             dCards (apply_conf conf data) = dCards data ++ added
             /\ (length added <= length (cards db))%nat).
  { exists []. rewrite app_nil_r. split; [exact Hc | cbn; lia]. }
  unfold makeQueries.
  destruct (cols db) as [| col [| col' cs]]; cbn [snd]; auto.
  destruct (cards db) as [| c cs] eqn:Hcards; cbn [snd]; auto.
  destruct (Unmarshal (Collection.Models col)) as [models |]; cbn [snd]; auto.
  destruct (Unmarshal (Collection.Decks col)) as [decks |]; cbn [snd]; auto.
  destruct (build_tables sched models decks (notes db)) as [T | e | p]; cbn [snd]; auto.
  destruct (resolveCards_data T (fields_order sched) (c :: cs) 0%nat (-1) (apply_conf conf data))
    as (added & Hs & Hl & _).
  destruct (resolveCards T (fields_order sched) 0 (c :: cs) (-1) (apply_conf conf data))
    as [[d | e | p] data1]; cbn [snd] in *; subst data1;
    cbn [set_Title dFilepath dNow dDescription dCards];
    (split; [exact Hf |]; split; [exact Hn |]; split; [exact Hd |];
     exists added; rewrite Hc; split; [reflexivity | exact Hl]).
Qed.

(** X12. Whatever it returns, [makeQueries] leaves the file path and the
    date of [data] as they were and keeps the cards [data] already held,
    in front of those it appends; the description is either left as it
    was or the one of the command line. *)
Theorem makeQueries_frame (db : Database) (sched : Schedule) (data : DBData)
  (conf : Configuration) :
  let data' := snd (makeQueries Unmarshal db sched data conf) in
  dFilepath data' = dFilepath data
  /\ dNow data' = dNow data
  /\ (dDescription data' = dDescription data
      \/ (Description conf <> "" /\ dDescription data' = Description conf))
  /\ exists added, dCards data' = dCards data ++ added
                   /\ (length added <= length (cards db))%nat.
Proof. apply makeQueries_data. Qed.

(** X13. When [makeQueries] ends well, it has appended exactly one
    rendered card per card row, in the order of the rows: the card at the
    place of a row holds the style sheet of the model of that row's card,
    and as front and back the two formats of the card after the loop over
    its declared fields (in the order of that card's [range]) and after the
    rewriting of the sound references. The title is the name the deck
    table gives for the deck id of the last card row (empty when it gives
    none), whatever title was passed; the description is the one of the
    command line when that is not empty. *)
Theorem makeQueries_success (db : Database) (sched : Schedule) (data data' : DBData)
  (conf : Configuration) :
  makeQueries Unmarshal db sched data conf = (Ok tt, data') ->
  exists col models decks T added,
    cols db = [col]
    /\ Unmarshal (Collection.Models col) = Some models
    /\ Unmarshal (Collection.Decks col) = Some decks
    /\ build_tables sched models decks (notes db) = Ok T
    /\ dCards data' = dCards data ++ added
    /\ length added = length (cards db)
    /\ (forall i c, nth_error (cards db) i = Some c ->
          exists fmt,
            replaceFields (fields_order sched i (card_replacements T c))
              (card_fields T c) (card_fmt T c) = Ok fmt
            /\ nth_error added i
               = Some (default EmptyString (css T !! card_mid T c),
                       regexp.ReplaceAllString (fst fmt) AUDIO_ELEMENT,
                       regexp.ReplaceAllString (snd fmt) AUDIO_ELEMENT))
    /\ dTitle data' = default EmptyString (decksInfo T !! last_did (cards db) (-1))
    /\ dDescription data'
       = (if String.eqb (Description conf) "" then dDescription data else Description conf).
Proof.
  unfold makeQueries.
  destruct (cols db) as [| col [| col' cs]]; try discriminate.
  destruct (cards db) as [| c cs] eqn:Hc; try discriminate.
  destruct (Unmarshal (Collection.Models col)) as [models |] eqn:Hm; try discriminate.
  destruct (Unmarshal (Collection.Decks col)) as [decks |] eqn:Hd; try discriminate.
  destruct (build_tables sched models decks (notes db)) as [T | e' | p] eqn:Hb;
    try discriminate.
  destruct (resolveCards T (fields_order sched) 0 (c :: cs) (-1) (apply_conf conf data))
    as [[d | e' | p] data1] eqn:Hr; try discriminate.
  intros [= <-].
  destruct (resolveCards_rendered _ _ _ _ _ _ _ _ Hr) as (added & Hs & Hlen & Hnth).
  pose proof (resolveCards_Ok _ _ _ _ _ _ _ _ Hr) as [-> _].
  assert (Hac : dCards (apply_conf conf data) = dCards data
                /\ dDescription (apply_conf conf data)
                   = (if String.eqb (Description conf) "" then dDescription data
                      else Description conf)).
  { unfold apply_conf.
    destruct (String.eqb (Title conf) ""), (String.eqb (Description conf) ""); now cbn. }
  destruct Hac as [Hac Hde].
  exists col, models, decks, T, added.
  subst data1. cbn [set_Title dTitle dDescription dCards].
  rewrite Hac.
  repeat split; try assumption; try reflexivity.
Qed.

End MakeQueriesProperties.

Lemma makeQueries_success_witness :
  let ns := [Sample.note 100 10 ("Q" +:+ Sample.us +:+ "A")] in
  let db := Sample.db [Sample.card 100 2 0; Sample.card 7 1 0] ns in
  let dec := Sample.decoder Sample.frontside_model in
  let data' := snd (makeQueries dec db Sample.forward Sample.data0 Sample.conf_titled) in
  exists col models decks T added,
    cols db = [col]
    /\ dec (Collection.Models col) = Some models
    /\ dec (Collection.Decks col) = Some decks
    /\ build_tables Sample.forward models decks (notes db) = Ok T
    /\ dCards data' = dCards Sample.data0 ++ added
    /\ length added = length (cards db)
    /\ (forall i c, nth_error (cards db) i = Some c ->
          exists fmt,
            replaceFields (fields_order Sample.forward i (card_replacements T c))
              (card_fields T c) (card_fmt T c) = Ok fmt
            /\ nth_error added i
               = Some (default EmptyString (css T !! card_mid T c),
                       regexp.ReplaceAllString (fst fmt) AUDIO_ELEMENT,
                       regexp.ReplaceAllString (snd fmt) AUDIO_ELEMENT))
    /\ dTitle data' = default EmptyString (decksInfo T !! last_did (cards db) (-1))
    /\ dDescription data'
       = (if String.eqb (Description Sample.conf_titled) "" then dDescription Sample.data0
          else Description Sample.conf_titled).
Proof.
  intros ns db dec data'.
  apply (makeQueries_success dec db Sample.forward Sample.data0 data' Sample.conf_titled).
  vm_compute. reflexivity.
Defined.

(* ===================================================================== *)
(** * Further properties: the lookup tables *)
(* ===================================================================== *)

Lemma build_notes_app (a b : list Note.t) :
  forall acc, build_notes (a ++ b) acc = build_notes b (build_notes a acc).
Proof. induction a as [| n a IH]; intros acc; simpl; [reflexivity | apply IH]. Qed.

Lemma build_notes_other (ns : list Note.t) (id : Z) :
  (forall n, In n ns -> Note.Id n <> id) ->
  forall acc,
    fst (build_notes ns acc) !! id = fst acc !! id
    /\ snd (build_notes ns acc) !! id = snd acc !! id.
Proof.
  induction ns as [| n ns IH]; intros Hid acc; simpl; [split; reflexivity |].
  destruct (IH (fun m Hm => Hid m (or_intror Hm))
              (<[Note.Id n := Note.Mid n]> (fst acc), <[Note.Id n := Note.Flds n]> (snd acc)))
    as [H1 H2].
  rewrite H1, H2. cbn [fst snd].
  assert (Hne : Note.Id n <> id) by (apply Hid; now left).
  now rewrite !lookup_insert_ne by exact Hne.
Qed.

Lemma build_tables_notes (sched : Schedule) (models decks : gmap string (gmap string json))
  (ns : list Note.t) (T : Tables) :
  build_tables sched models decks ns = Ok T ->
  nid2mid T = fst (build_notes ns (∅, ∅)) /\ nid2flds T = snd (build_notes ns (∅, ∅)).
Proof.
  unfold build_tables.
  destruct (build_decksInfo _ _); cbn [bind]; try discriminate.
  destruct (build_css _ _); cbn [bind]; try discriminate.
  destruct (build_fieldReplacements _ _); cbn [bind]; try discriminate.
  destruct (build_templates _ _); cbn [bind]; try discriminate.
  intros [= <-]. split; reflexivity.
Qed.

(** X14. The note tables: a card whose note id is the id of a note row,
    with no later row of the same id, gets the model id and the fields of
    that row (of two rows with one id the later one counts); a card whose
    note id is the id of no row misses in both tables. *)
Theorem notes_tables_lookup (sched : Schedule) (models decks : gmap string (gmap string json))
  (ns : list Note.t) (T : Tables) :
  build_tables sched models decks ns = Ok T ->
  (forall pre n post c,
      ns = pre ++ n :: post ->
      (forall m, In m post -> Note.Id m <> Note.Id n) ->
      Card.Nid c = Note.Id n ->
      card_mid T c = Note.Mid n
      /\ card_fields T c = strings.Split (Note.Flds n) unit_separator)
  /\ (forall c, (forall n, In n ns -> Note.Id n <> Card.Nid c) ->
        nid2mid T !! Card.Nid c = None /\ nid2flds T !! Card.Nid c = None).
Proof.
  intros Hb. apply build_tables_notes in Hb as [Hm Hf]. split.
  - intros pre n post c -> Hpost Hc.
    unfold card_mid, card_fields. rewrite Hm, Hf, Hc, build_notes_app. cbn [build_notes].
    destruct (build_notes_other post (Note.Id n) Hpost
                (<[Note.Id n := Note.Mid n]> (fst (build_notes pre (∅, ∅))),
                 <[Note.Id n := Note.Flds n]> (snd (build_notes pre (∅, ∅))))) as [-> ->].
    cbn [fst snd]. now rewrite !lookup_insert_eq.
  - intros c Hc. rewrite Hm, Hf.
    destruct (build_notes_other ns (Card.Nid c) Hc (∅, ∅)) as [-> ->].
    cbn [fst snd]. now rewrite !lookup_empty.
Qed.

Lemma notes_tables_lookup_witness :
  let ns := [Sample.note 100 10 "old"; Sample.note 100 10 ("Q" +:+ Sample.us +:+ "A")] in
  let T := Sample.tables Sample.frontside_model ns in
  (card_mid T (Sample.card 100 1 0) = 10
   /\ card_fields T (Sample.card 100 1 0) = ["Q"; "A"])
  /\ (nid2mid T !! 7 = None /\ nid2flds T !! 7 = None).
Proof.
  intros ns T.
  assert (Hb : build_tables Sample.forward Sample.frontside_model Sample.decks ns = Ok T)
    by (vm_compute; reflexivity).
  destruct (notes_tables_lookup Sample.forward Sample.frontside_model Sample.decks ns T Hb)
    as [H1 H2].
  split.
  - apply (H1 [Sample.note 100 10 "old"] (Sample.note 100 10 ("Q" +:+ Sample.us +:+ "A")) []
             (Sample.card 100 1 0)); [reflexivity | intros m [] | reflexivity].
  - apply (H2 (Sample.card 7 1 0)).
    intros n [<- | [<- | []]]; simpl; lia.
Defined.

Lemma build_decksInfo_lookup (order : list (string * gmap string json)) :
  forall acc m,
    build_decksInfo order acc = Ok m ->
    NoDup (map (fun p => strconv.Atoi (fst p)) order) ->
    (forall did d, In (did, d) order ->
       exists k name, strconv.Atoi did = Ok k
                      /\ d !! "name" = Some (JString name) /\ m !! k = Some name)
    /\ (forall k, (forall did d, In (did, d) order -> strconv.Atoi did <> Ok k) ->
          m !! k = acc !! k).
Proof.
  induction order as [| [did0 d0] order IH]; intros acc m; cbn [build_decksInfo map fst].
  - intros [= <-] _. split; [intros ? ? [] | reflexivity].
  - destruct (strconv.Atoi did0) as [k0 | e | p] eqn:Ha; cbn [bind]; try discriminate.
    destruct (d0 !! "name") as [[| | | name0 | |] |] eqn:Hn; cbn [assert_string bind];
      try discriminate.
    intros Hb Hnd. apply NoDup_cons in Hnd as [Hnotin Hnd].
    destruct (IH _ _ Hb Hnd) as [Hin Hout].
    assert (Hk0 : m !! k0 = Some name0).
    { rewrite Hout; [apply lookup_insert_eq |].
      intros did d Hd Hp. apply Hnotin.
      apply list_elem_of_In, in_map_iff. exists (did, d). split; [exact Hp | exact Hd]. }
    split.
    + intros did d [[= <- <-] | Hd]; [eauto | now apply Hin].
    + intros k Hk. rewrite Hout.
      * apply lookup_insert_ne. intros <-. apply (Hk did0 d0); [now left | exact Ha].
      * intros did d Hd. apply (Hk did d). now right.
Qed.

(** X15. The deck table. When the loop over [decks] ends well and the keys
    of [decks] parse to different integers, the table holds, for every
    deck, its name under the integer its key parses to, and nothing under
    an integer no key parses to: whatever the order of the loop. *)
Theorem decksInfo_lookup (order : list (string * gmap string json)) (m : gmap Z string) :
  build_decksInfo order ∅ = Ok m ->
  NoDup (map (fun p => strconv.Atoi (fst p)) order) ->
  (forall did d, In (did, d) order ->
     exists k name, strconv.Atoi did = Ok k
                    /\ d !! "name" = Some (JString name) /\ m !! k = Some name)
  /\ (forall k, (forall did d, In (did, d) order -> strconv.Atoi did <> Ok k) ->
        m !! k = None).
Proof.
  intros Hb Hnd. destruct (build_decksInfo_lookup order ∅ m Hb Hnd) as [H1 H2].
  split; [exact H1 |]. intros k Hk. rewrite (H2 k Hk). apply lookup_empty.
Qed.

Lemma decksInfo_lookup_witness :
  exists k name, strconv.Atoi "2" = Ok k
                 /\ (<["name" := JString "Other"]> (∅ : gmap string json)) !! "name"
                    = Some (JString name)
                 /\ decksInfo (Sample.tables Sample.frontside_model []) !! k = Some name.
Proof.
  destruct (decksInfo_lookup (map_to_list Sample.decks)
              (decksInfo (Sample.tables Sample.frontside_model []))) as [H _].
  - vm_compute. reflexivity.
  - vm_compute. repeat constructor; intros H; inversion H as [| ? ? ? H']; subst;
      try discriminate; inversion H'.
  - apply H. vm_compute. right. left. reflexivity.
Defined.

(* ===================================================================== *)
(** * Further properties: replacing and sound references *)
(* ===================================================================== *)

Lemma append_cons (c : ascii) (a b : string) : String c a +:+ b = String c (a +:+ b).
Proof. reflexivity. Qed.

Lemma append_nil_l (b : string) : "" +:+ b = b.
Proof. reflexivity. Qed.

Lemma append_nil_r (a : string) : a +:+ "" = a.
Proof. induction a as [| c a IH]; [reflexivity |]. now rewrite append_cons, IH. Qed.

Lemma append_assoc (a b c : string) : (a +:+ b) +:+ c = a +:+ (b +:+ c).
Proof. induction a as [| x a IH]; [reflexivity |]. now rewrite !append_cons, IH. Qed.

Lemma length_append (a b : string) :
  String.length (a +:+ b) = (String.length a + String.length b)%nat.
Proof. induction a as [| x a IH]; [reflexivity |]. rewrite append_cons. cbn. now rewrite IH. Qed.

Lemma prefix_nil (s : string) : String.prefix "" s = true.
Proof. destruct s; reflexivity. Qed.

Lemma prefix_cons_same (c : ascii) (p s : string) :
  String.prefix (String c p) (String c s) = String.prefix p s.
Proof.
  cbn [String.prefix]. destruct (Ascii.ascii_dec c c); [reflexivity | contradiction].
Qed.

Lemma prefix_head_other (a c : ascii) (p s : string) :
  Ascii.eqb c a = false -> String.prefix (String a p) (String c s) = false.
Proof.
  intros H. cbn [String.prefix].
  destruct (Ascii.ascii_dec a c) as [<- | _]; [| reflexivity].
  now rewrite Ascii.eqb_refl in H.
Qed.

Lemma substring_prefix (a b : string) : String.substring 0 (String.length a) (a +:+ b) = a.
Proof.
  induction a as [| c a IH]; [destruct b; reflexivity |].
  rewrite append_cons. cbn. now rewrite IH.
Qed.

Lemma substring_all (s : string) : String.substring 0 (String.length s) s = s.
Proof. rewrite <- (append_nil_r s) at 2. apply substring_prefix. Qed.

Lemma replace_from_free (c : ascii) (old new s : string) :
  free_of c s = true -> strings.replace_from (String c old) new 0 s = s.
Proof.
  induction s as [| a s IH]; [reflexivity |].
  cbn [free_of]. intros H. apply andb_prop in H as [Ha Hs]. apply negb_true_iff in Ha.
  cbn [strings.replace_from]. rewrite (prefix_head_other c a old s Ha). now rewrite (IH Hs).
Qed.

Lemma Replace_free (c : ascii) (old new s : string) :
  free_of c s = true -> strings.Replace s (String c old) new = s.
Proof. intros H. unfold strings.Replace. now apply replace_from_free. Qed.

(** X16. A pair of formats without an opening brace holds no placeholder,
    and the loop over the declared fields leaves it as it is, for every
    list of declared fields whose ordinals are indices of the field
    list. *)
Theorem replaceFields_no_placeholder (order : list (string * Z)) (fields : list string)
  (fmt : string * string) :
  free_of "{" (fst fmt) = true -> free_of "{" (snd fmt) = true ->
  forallb (in_boundsb fields) order = true ->
  replaceFields order fields fmt = Ok fmt.
Proof.
  destruct fmt as [q a]. cbn [fst snd]. intros Hq Ha.
  induction order as [| [n i] order IH]; cbn [forallb replaceFields]; [reflexivity |].
  intros Hb. apply andb_prop in Hb as [Hh Ht].
  unfold replaceField, index_string. unfold in_boundsb in Hh. cbn [snd] in Hh. rewrite Hh.
  cbn [bind fst snd].
  change ("{{" +:+ n +:+ "}}") with (String "{" ("{" +:+ n +:+ "}}")).
  change ("{{type:" +:+ n +:+ "}}") with (String "{" ("{type:" +:+ n +:+ "}}")).
  change "{{FrontSide}}" with (String "{" "{FrontSide}}").
  rewrite !(Replace_free "{" _ _ q Hq). rewrite !(Replace_free "{" _ _ a Ha).
  now apply IH.
Qed.

Lemma replaceFields_no_placeholder_witness :
  replaceFields [("Front", 0); ("Back", 1)] ["Q"; "A"] ("What?", "<b>That</b>")
  = Ok ("What?", "<b>That</b>").
Proof.
  apply (replaceFields_no_placeholder [("Front", 0); ("Back", 1)] ["Q"; "A"]
           ("What?", "<b>That</b>")); reflexivity.
Defined.

Lemma match_here_other (c : ascii) (s : string) :
  Ascii.eqb c "[" = false -> regexp.match_here (String c s) = None.
Proof.
  intros H. unfold regexp.match_here.
  change "[sound:" with (String "[" "sound:").
  now rewrite (prefix_head_other "[" c "sound:" s H).
Qed.

Lemma replace_all_from_free (repl pre rest : string) :
  free_of "[" pre = true ->
  regexp.replace_all_from repl 0 (pre +:+ rest) = pre +:+ regexp.replace_all_from repl 0 rest.
Proof.
  induction pre as [| c pre IH]; [reflexivity |].
  cbn [free_of]. intros H. apply andb_prop in H as [Hc Hp]. apply negb_true_iff in Hc.
  rewrite !append_cons. cbn [regexp.replace_all_from].
  rewrite (match_here_other c _ Hc). now rewrite (IH Hp).
Qed.

Lemma replace_all_from_skip (repl a b : string) :
  regexp.replace_all_from repl (String.length a) (a +:+ b)
  = regexp.replace_all_from repl 0 b.
Proof.
  induction a as [| c a IH]; [reflexivity |].
  rewrite append_cons. cbn [String.length regexp.replace_all_from]. exact IH.
Qed.

(** X17. A text without an opening bracket holds no sound reference and
    is left as it is by the rewriting, whatever the replacement. *)
Theorem ReplaceAllString_no_bracket (s repl : string) :
  free_of "[" s = true -> regexp.ReplaceAllString s repl = s.
Proof.
  intros H. unfold regexp.ReplaceAllString.
  rewrite <- (append_nil_r s) at 1.
  rewrite (replace_all_from_free repl s "" H). apply append_nil_r.
Qed.

Lemma ReplaceAllString_no_bracket_witness :
  regexp.ReplaceAllString "Q<hr>A" AUDIO_ELEMENT = "Q<hr>A".
Proof. apply (ReplaceAllString_no_bracket "Q<hr>A" AUDIO_ELEMENT). reflexivity. Defined.

Lemma last_close_name (name x : string) :
  free_of "]" name = true -> free_of regexp.newline name = true ->
  forall i best,
    regexp.last_close (name +:+ x) i best
    = regexp.last_close x (i + String.length name) best.
Proof.
  induction name as [| c name IH]; intros Hb Hn i best.
  - rewrite append_nil_l. cbn. now rewrite Nat.add_0_r.
  - cbn [free_of] in Hb, Hn.
    apply andb_prop in Hb as [Hcb Hb]. apply andb_prop in Hn as [Hcn Hn].
    apply negb_true_iff in Hcb, Hcn.
    rewrite append_cons. cbn [regexp.last_close String.length].
    rewrite Hcn, Hcb. cbn [andb]. rewrite (IH Hb Hn). f_equal. lia.
Qed.

Lemma last_close_free (post : string) :
  free_of "]" post = true -> forall j best, regexp.last_close post j best = best.
Proof.
  induction post as [| c post IH]; intros Hb j best; [reflexivity |].
  cbn [free_of] in Hb. apply andb_prop in Hb as [Hc Hb]. apply negb_true_iff in Hc.
  cbn [regexp.last_close]. destruct (Ascii.eqb c regexp.newline); [reflexivity |].
  rewrite Hc. cbn [andb]. now apply IH.
Qed.

(** A match at the head of one sound reference followed by a text without
    a closing bracket. *)
Lemma match_here_reference (name post : string) :
  name <> "" -> free_of "]" name = true -> free_of regexp.newline name = true ->
  free_of "]" post = true ->
  regexp.match_here ("[sound:" +:+ name +:+ "]" +:+ post)
  = Some (name, (7 + String.length name + 1)%nat).
Proof.
  intros Hne Hb Hn Hp. unfold regexp.match_here.
  set (rest := name +:+ "]" +:+ post).
  change ("[sound:" +:+ rest)
    with (String "[" (String "s" (String "o" (String "u" (String "n" (String "d"
           (String ":" rest))))))).
  assert (Hpre : String.prefix "[sound:"
                   (String "[" (String "s" (String "o" (String "u" (String "n" (String "d"
                      (String ":" rest))))))) = true).
  { change "[sound:" with (String "[" (String "s" (String "o" (String "u" (String "n"
             (String "d" (String ":" ""))))))).
    rewrite !prefix_cons_same. apply prefix_nil. }
  rewrite Hpre.
  cbn [String.length Nat.sub String.substring].
  rewrite Nat.sub_0_r, substring_all.
  assert (Hk : regexp.last_close rest 0 None = Some (String.length name)).
  { unfold rest. rewrite (last_close_name name _ Hb Hn).
    change ("]" +:+ post) with (String "]" post).
    cbn [regexp.last_close]. change (Ascii.eqb "]" regexp.newline) with false.
    cbn [Nat.add]. rewrite Ascii.eqb_refl.
    destruct name as [| c name]; [contradiction |].
    cbn [String.length Nat.leb andb]. now apply last_close_free. }
  rewrite Hk. unfold rest. now rewrite substring_prefix.
Qed.

(** X18. One sound reference with a file name that is not empty and holds
    neither a closing bracket nor a line feed, between two texts without
    brackets, is rewritten into the replacement expanded for exactly that
    file name, and the two texts are kept as they are. *)
Theorem ReplaceAllString_one_reference (pre name post repl : string) :
  free_of "[" pre = true ->
  name <> "" -> free_of "]" name = true -> free_of regexp.newline name = true ->
  free_of "[" post = true -> free_of "]" post = true ->
  regexp.ReplaceAllString (pre +:+ "[sound:" +:+ name +:+ "]" +:+ post) repl
  = pre +:+ regexp.expand repl ("[sound:" +:+ name +:+ "]") name +:+ post.
Proof.
  intros Hpre Hne Hb Hn Hpo Hpc. unfold regexp.ReplaceAllString.
  rewrite (replace_all_from_free repl pre _ Hpre). f_equal.
  pose proof (match_here_reference name post Hne Hb Hn Hpc) as Hm.
  set (rest := name +:+ "]" +:+ post) in *.
  change ("[sound:" +:+ rest) with (String "[" ("sound:" +:+ rest)) in *.
  cbn [regexp.replace_all_from]. rewrite Hm.
  assert (Hw : String.substring 0 (7 + String.length name + 1) (String "[" ("sound:" +:+ rest))
               = "[sound:" +:+ name +:+ "]").
  { replace (7 + String.length name + 1)%nat
      with (String.length ("[sound:" +:+ name +:+ "]"))
      by (rewrite !length_append; cbn; lia).
    change (String "[" ("sound:" +:+ rest)) with ("[sound:" +:+ rest). unfold rest.
    rewrite <- (append_assoc name "]" post), <- (append_assoc "[sound:" (name +:+ "]") post).
    apply substring_prefix. }
  rewrite Hw. f_equal.
  replace (Nat.pred (7 + String.length name + 1))
    with (String.length ("sound:" +:+ name +:+ "]"))
    by (rewrite !length_append; cbn; lia).
  unfold rest.
  rewrite <- (append_assoc name "]" post), <- (append_assoc "sound:" (name +:+ "]") post).
  rewrite replace_all_from_skip.
  rewrite <- (append_nil_r post) at 1.
  rewrite (replace_all_from_free repl post "" Hpo). apply append_nil_r.
Qed.

Lemma ReplaceAllString_one_reference_witness :
  regexp.ReplaceAllString ("Listen: " +:+ "[sound:" +:+ "bell.mp3" +:+ "]" +:+ " <b>!</b>")
    AUDIO_ELEMENT
  = "Listen: " +:+ regexp.expand AUDIO_ELEMENT ("[sound:" +:+ "bell.mp3" +:+ "]") "bell.mp3"
    +:+ " <b>!</b>".
Proof.
  apply (ReplaceAllString_one_reference "Listen: " "bell.mp3" " <b>!</b>" AUDIO_ELEMENT);
    try reflexivity.
  discriminate.
Defined.

(** X19. The replacement [AUDIO_ELEMENT] expanded for a match: both
    references [$1] stand for the text of group 1, taken as it is (a dollar
    sign in it is not expanded again), the second followed by the dot of
    the template; nothing else of the match enters the markup. *)
Theorem AUDIO_ELEMENT_expand (whole cap1 : string) :
  regexp.expand AUDIO_ELEMENT whole cap1
  = "<audio controls><source src=" +:+ dq +:+ cap1 +:+ dq +:+ " type=" +:+ dq
    +:+ "audio/3gpp" +:+ dq +:+ "><source src=" +:+ dq +:+ cap1 +:+ "." +:+ dq +:+ " type="
    +:+ dq +:+ "audio/ogg" +:+ dq
    +:+ "> Your browser does not support the <code>audio</code> element.</audio>".
Proof. vm_compute. reflexivity. Qed.

(* ===================================================================== *)
(** * Further properties: the arguments of main *)
(* ===================================================================== *)

Lemma parseArgs_app_option (args : list string) (a : string) :
  is_option a = true ->
  forall flag conf, parseArgs (args ++ [a]) flag conf = parseArgs args flag conf.
Proof.
  intros Ha. induction args as [| x args IH]; intros flag conf; cbn [app parseArgs].
  - now rewrite Ha.
  - destruct (is_option x); [apply IH |].
    repeat match goal with
           | |- context [if ?b then _ else _] => destruct b; try apply IH; try reflexivity
           end.
Qed.

(** X20. An option that is the last argument has no effect: [main] goes
    on as without it. In particular [-h] or [--help] as the last argument
    prints no help (the help is printed when an argument follows it). *)
Theorem main_trailing_option (args : list string) (a : string) :
  is_option a = true -> main_conf (args ++ [a]) = main_conf args.
Proof. intros Ha. unfold main_conf. now rewrite parseArgs_app_option. Qed.

Lemma main_trailing_option_witness :
  main_conf (["deck.apkg"] ++ ["--help"]) = main_conf ["deck.apkg"].
Proof. apply (main_trailing_option ["deck.apkg"] "--help"). reflexivity. Defined.

(** X21. After an option that takes a value ([-o], [-t], [-d] and their
    long forms) every argument up to the next option is taken as a value
    of that option: none of them becomes the input file and none ends the
    program, so a package path written after such an option is not
    read as the input. *)
Theorem parseArgs_values_after_option (vals : list string) (flag : string) :
  value_option flag = true ->
  Forall (fun a => is_option a = false) vals ->
  forall conf, exists conf',
    parseArgs vals flag conf = Run conf' /\ Input conf' = Input conf.
Proof.
  intros Hf Hv. induction Hv as [| a vals Ha _ IH]; intros conf; cbn [parseArgs].
  - eauto.
  - rewrite Ha. unfold value_option in Hf.
    destruct (String.eqb flag "o" || String.eqb flag "-output") eqn:Ho.
    { destruct (IH (set_Output conf a)) as (c' & -> & Hi). eauto. }
    destruct (String.eqb flag "t" || String.eqb flag "-title") eqn:Ht.
    { destruct (IH (set_conf_Title conf a)) as (c' & -> & Hi). eauto. }
    destruct (String.eqb flag "d" || String.eqb flag "-description") eqn:Hd.
    { destruct (IH (set_conf_Description conf a)) as (c' & -> & Hi). eauto. }
    exfalso.
    apply orb_false_iff in Ho as [H1 H2]. apply orb_false_iff in Ht as [H3 H4].
    apply orb_false_iff in Hd as [H5 H6].
    rewrite ?H1, ?H2, ?H3, ?H4, ?H5, ?H6 in Hf. discriminate.
Qed.

Lemma parseArgs_values_after_option_witness :
  exists conf',
    parseArgs ["site"; "deck.apkg"] "o" (mkConfiguration "" "" "" "") = Run conf'
    /\ Input conf' = Input (mkConfiguration "" "" "" "").
Proof.
  apply (parseArgs_values_after_option ["site"; "deck.apkg"] "o").
  - reflexivity.
  - repeat constructor.
Defined.

(** X22. Without any option, one argument that is not empty is the input
    file and the output directory is [out]; a second argument makes
    [main] print the help and leave with the exit code 1. *)
Theorem main_positional (a : string) :
  is_option a = false -> a <> "" ->
  main_conf [a] = Run (mkConfiguration a "out" "" "")
  /\ forall b rest, is_option b = false -> main_conf (a :: b :: rest) = Exit 1.
Proof.
  intros Ha Hne. apply String.eqb_neq in Hne. split.
  - unfold main_conf. cbn. now rewrite Ha.
  - intros b rest Hb. unfold main_conf. cbn. rewrite Ha, Hb. cbn. now rewrite Hne.
Qed.

Lemma main_positional_witness :
  main_conf ["deck.apkg"] = Run (mkConfiguration "deck.apkg" "out" "" "")
  /\ forall b rest, is_option b = false -> main_conf ("deck.apkg" :: b :: rest) = Exit 1.
Proof. apply (main_positional "deck.apkg"); [reflexivity | discriminate]. Defined.

(* ===================================================================== *)
(** * Further properties: readDatabase *)
(* ===================================================================== *)

(** X23. Once the temporary directory exists, [readDatabase] always ends
    by removing it, whatever it returns (an error of any stage, a panic of
    [makeQueries]); before that, its first effect is to create the output
    directory, and nothing it has written there is taken back. *)
Theorem readDatabase_cleanup (w : World) (data : DBData) (conf : Configuration)
  (tempDir : string) :
  w_TempDir w = inl tempDir ->
  exists tr,
    snd (readDatabase w data conf)
    = map Fs (MkdirAll (Output conf) :: tr) ++ [RemoveAll tempDir].
Proof.
  intros Ht. unfold readDatabase. rewrite Ht.
  destruct (extractArchive _ _ _ _) as [[e |] trx]; cbn [snd app].
  { eauto. }
  destruct (readMediaFile _ _ _ _) as [media | e]; cbn [snd].
  2: { eauto. }
  destruct (renameMedia_extends (w_Rename_ok w) (Output conf)
              (w_media_order w media) (MkdirAll (Output conf) :: trx))
    as (added & Hs).
  destruct (renameMedia _ _ _ _) as [[e |] tr2]; cbn [snd] in *; subst tr2.
  { exists (trx ++ added). reflexivity. }
  destruct (makeQueries _ _ _ _ _) as [r data2]. cbn [snd].
  exists (trx ++ added). reflexivity.
Qed.

(** X24. [readDatabase] changes [data] only through [makeQueries]. When
    a stage before the queries fails (the temporary directory, the
    extraction, the reading of the manifest, the rename pass), the error
    of that stage is returned and [data] is as it was. When all of them
    succeed, the result is the one of [makeQueries] on the rows of the
    extracted database, called with the file path of [data] set to the
    input of the command line and its date to the date of the run, and
    these two are what [data] holds afterwards, whatever [makeQueries]
    returns. *)
Theorem readDatabase_frame (w : World) (data : DBData) (conf : Configuration) :
  (forall e, w_TempDir w = inr e -> fst (readDatabase w data conf) = (Err e, data))
  /\ (forall tempDir,
        w_TempDir w = inl tempDir ->
        forall r trx,
          extractArchive (w_OpenFile_ok w) tempDir (Output conf) (w_OpenReader w (Input conf))
          = (r, trx) ->
          (forall e, r = Some e -> fst (readDatabase w data conf) = (Err e, data))
          /\ (r = None ->
              (forall e,
                  readMediaFile w (MkdirAll (Output conf) :: trx)
                    (filepath.Join [tempDir; "media"]) ∅ = inr e ->
                  fst (readDatabase w data conf) = (Err e, data))
              /\ (forall media r' tr2,
                    readMediaFile w (MkdirAll (Output conf) :: trx)
                      (filepath.Join [tempDir; "media"]) ∅ = inl media ->
                    renameMedia (w_Rename_ok w) (Output conf) (w_media_order w media)
                      (MkdirAll (Output conf) :: trx) = (r', tr2) ->
                    (forall e, r' = Some e ->
                               fst (readDatabase w data conf) = (Err e, data))
                    /\ (r' = None ->
                        fst (readDatabase w data conf)
                        = makeQueries (w_Unmarshal w)
                            (w_Select w tr2 (filepath.Join [tempDir; "collection.anki2"]))
                            (w_sched w)
                            (mkDBData (dTitle data) (Input conf) (w_Now w)
                               (dDescription data) (dCards data))
                            conf
                        /\ dFilepath (snd (fst (readDatabase w data conf))) = Input conf
                        /\ dNow (snd (fst (readDatabase w data conf))) = w_Now w)))).
Proof.
  split.
  - intros e Ht. unfold readDatabase. now rewrite Ht.
  - intros tempDir Ht r trx Hx. unfold readDatabase. rewrite Ht, Hx. cbn [app]. split.
    + now intros e ->.
    + intros ->. split.
      * now intros e ->.
      * intros media r' tr2 -> ->. split.
        -- now intros e ->.
        -- intros ->.
           destruct (makeQueries_data (w_Unmarshal w)
                       (w_Select w tr2 (filepath.Join [tempDir; "collection.anki2"]))
                       (w_sched w)
                       (mkDBData (dTitle data) (Input conf) (w_Now w) (dDescription data)
                          (dCards data))
                       conf) as (Hf & Hn & _).
           destruct (makeQueries _ _ _ _ _) as [res data2]. cbn [fst snd] in *.
           repeat split; assumption.
Qed.

(** X24, at the sample run (all stages succeed) and at the run with an
    absolute output directory (the rename pass fails). *)
Lemma readDatabase_frame_witness :
  (fst (readDatabase SampleWorld.world Sample.data0 Sample.conf0)
   = makeQueries (w_Unmarshal SampleWorld.world)
       (w_Select SampleWorld.world
          (snd (renameMedia (fun _ _ => true) "out" [("0", "cat.png")]
                  (MkdirAll "out"
                   :: snd (extractArchive (fun _ => true) "/tmp/anki2html1" "out"
                             (inl SampleWorld.package)))))
          (filepath.Join ["/tmp/anki2html1"; "collection.anki2"]))
       (w_sched SampleWorld.world)
       (mkDBData "" "x.apkg" "2026/10/31" "" []) Sample.conf0
   /\ dFilepath (snd (fst (readDatabase SampleWorld.world Sample.data0 Sample.conf0)))
      = "x.apkg"
   /\ dNow (snd (fst (readDatabase SampleWorld.world Sample.data0 Sample.conf0)))
      = "2026/10/31")
  /\ fst (readDatabase SampleWorld.world Sample.data0 SampleWorld.conf_absolute)
     = (Err ErrMalicious, Sample.data0).
Proof.
  split.
  - destruct (readDatabase_frame SampleWorld.world Sample.data0 Sample.conf0) as [_ H].
    destruct (H "/tmp/anki2html1" eq_refl None
                (snd (extractArchive (fun _ => true) "/tmp/anki2html1" "out"
                        (inl SampleWorld.package))))
      as [_ H1]; [vm_compute; reflexivity |].
    destruct (H1 eq_refl) as [_ H2].
    destruct (H2 (SampleWorld.manifest ∪ ∅) None
                (snd (renameMedia (fun _ _ => true) "out" [("0", "cat.png")]
                        (MkdirAll "out"
                         :: snd (extractArchive (fun _ => true) "/tmp/anki2html1" "out"
                                   (inl SampleWorld.package))))))
      as [_ H3]; [vm_compute; reflexivity | vm_compute; reflexivity |].
    exact (H3 eq_refl).
  - destruct (readDatabase_frame SampleWorld.world Sample.data0 SampleWorld.conf_absolute)
      as [_ H].
    destruct (H "/tmp/anki2html1" eq_refl None
                (snd (extractArchive (fun _ => true) "/tmp/anki2html1" "/srv/out"
                        (inl SampleWorld.package))))
      as [_ H1]; [vm_compute; reflexivity |].
    destruct (H1 eq_refl) as [_ H2].
    destruct (H2 (SampleWorld.manifest ∪ ∅) (Some ErrMalicious)
                (MkdirAll "/srv/out"
                 :: snd (extractArchive (fun _ => true) "/tmp/anki2html1" "/srv/out"
                           (inl SampleWorld.package))))
      as [H3 _]; [vm_compute; reflexivity | vm_compute; reflexivity |].
    exact (H3 ErrMalicious eq_refl).
Defined.

(** X25. With an absolute output directory and a manifest that is not
    empty, [readDatabase] extracts the whole archive and then fails in the
    rename pass with the error of a malicious path: the files stay
    extracted under their archive names, no file is renamed, [data] is
    untouched and the database is not read. *)
Theorem readDatabase_absolute_output (w : World) (data : DBData) (conf : Configuration)
  (tempDir : string) (trx : list fsop) (media : gmap string string) :
  w_TempDir w = inl tempDir ->
  extractArchive (w_OpenFile_ok w) tempDir (Output conf) (w_OpenReader w (Input conf))
  = (None, trx) ->
  readMediaFile w (MkdirAll (Output conf) :: trx) (filepath.Join [tempDir; "media"]) ∅
  = inl media ->
  w_media_order w media <> [] ->
  String.prefix "/" (Output conf) = true ->
  readDatabase w data conf
  = (Err ErrMalicious, data,
     map Fs (MkdirAll (Output conf) :: trx) ++ [RemoveAll tempDir]).
Proof.
  intros Ht Hx Hm Hne Habs. unfold readDatabase. rewrite Ht, Hx. cbn [app].
  rewrite Hm.
  destruct (w_media_order w media) as [| [filename original] rest]; [contradiction |].
  cbn -[filepath.Join maliciousPath].
  now rewrite (Join_absolute_malicious (Output conf) original Habs).
Qed.

(** The sample run ends well and renames the media file. *)
Example readDatabase_sample :
  readDatabase SampleWorld.world Sample.data0 Sample.conf0
  = (Ok tt, mkDBData "Default" "x.apkg" "2026/10/31" "" [(".card{}", "Q", "Q<hr>A")],
     map Fs [MkdirAll "out";
             MkdirAll "/tmp/anki2html1"; WriteFile "/tmp/anki2html1/collection.anki2" "rows";
             MkdirAll "/tmp/anki2html1"; WriteFile "/tmp/anki2html1/media" "manifest";
             MkdirAll "out"; WriteFile "out/0" "png";
             Rename "out/0" "out/cat.png"]
     ++ [RemoveAll "/tmp/anki2html1"]).
Proof. vm_compute. reflexivity. Qed.

Lemma readDatabase_cleanup_witness :
  exists tr,
    snd (readDatabase SampleWorld.world Sample.data0 Sample.conf0)
    = map Fs (MkdirAll (Output Sample.conf0) :: tr) ++ [RemoveAll "/tmp/anki2html1"].
Proof.
  apply (readDatabase_cleanup SampleWorld.world Sample.data0 Sample.conf0 "/tmp/anki2html1").
  reflexivity.
Defined.

Lemma readDatabase_absolute_output_witness :
  readDatabase SampleWorld.world Sample.data0 SampleWorld.conf_absolute
  = (Err ErrMalicious, Sample.data0,
     map Fs (MkdirAll "/srv/out"
             :: [MkdirAll "/tmp/anki2html1";
                 WriteFile "/tmp/anki2html1/collection.anki2" "rows";
                 MkdirAll "/tmp/anki2html1"; WriteFile "/tmp/anki2html1/media" "manifest";
                 MkdirAll "/srv/out"; WriteFile "/srv/out/0" "png"])
     ++ [RemoveAll "/tmp/anki2html1"]).
Proof.
  apply (readDatabase_absolute_output SampleWorld.world Sample.data0 SampleWorld.conf_absolute
           "/tmp/anki2html1"
           [MkdirAll "/tmp/anki2html1";
            WriteFile "/tmp/anki2html1/collection.anki2" "rows";
            MkdirAll "/tmp/anki2html1"; WriteFile "/tmp/anki2html1/media" "manifest";
            MkdirAll "/srv/out"; WriteFile "/srv/out/0" "png"]
           (SampleWorld.manifest ∪ ∅)).
  - reflexivity.
  - vm_compute. reflexivity.
  - vm_compute. reflexivity.
  - vm_compute. discriminate.
  - reflexivity.
Defined.
